(** * Envelope packing and credential issuance of the Aries agent framework

  A shallow embedding of [EnvelopeService] (agent/EnvelopeService.ts) and of
  [IndyIssuerService.createCredential]
  (modules/indy/services/IndyIssuerService.ts).

  Both services are asynchronous methods over injected collaborators (the
  wallet, the logger, the indy binding, the file system).  A method is
  embedded as a computation over an explicit state that either fulfils with
  a value or rejects with the thrown error, and that emits one event per
  call it makes to a collaborator, in program order. *)

From Stdlib Require Import Lia.
From stdpp Require Import base option list gmap strings.

Set Default Proof Using "Type".

(** ** JavaScript outcomes and thrown values *)

Module Js.

(** The values the modelled code throws or lets through. *)
Inductive JsError : Type :=
| AriesFrameworkError (message : string)
| IndySdkError (cause : JsError)
| TypeError (message : string)
| Foreign (name : string) (message : string).

(** An awaited promise: fulfilled with a value or rejected with an error. *)
Inductive Outcome (A : Type) : Type :=
| Fulfilled (value : A)
| Rejected (error : JsError).
Arguments Fulfilled {A} value.
Arguments Rejected {A} error.

Definition is_fulfilled {A} (o : Outcome A) : bool :=
  match o with Fulfilled _ => true | Rejected _ => false end.

(** [x ?? d] on a [T | null] or [T | undefined] operand. *)
Definition nullish {A} (x : option A) (d : option A) : option A :=
  match x with Some v => Some v | None => d end.

(** Truthiness of an optional string: absent and empty are falsy. *)
Definition truthy (x : option string) : bool :=
  match x with
  | Some s => negb (String.eqb s EmptyString)
  | None => false
  end.

End Js.
Export Js.

(** ** Computations: state, rejection, and the calls made on the way *)

Module Effects.
Section Effects.
Context {St Ev : Type}.

Record Run (A : Type) : Type :=
  MkRun { outcome : Outcome A; final : St; emitted : list Ev }.
Arguments MkRun {A} outcome final emitted.
Arguments outcome {A} r.
Arguments final {A} r.
Arguments emitted {A} r.

Definition M (A : Type) : Type := St -> Run A.

Definition ret {A} (a : A) : M A := fun s => MkRun (Fulfilled a) s [].

Definition throw {A} (e : JsError) : M A := fun s => MkRun (Rejected e) s [].

(** A run that comes after the calls [evs] were made. *)
Definition prepend {A} (evs : list Ev) (r : Run A) : Run A :=
  MkRun (outcome r) (final r) (evs ++ emitted r).

Definition bind {A B} (m : M A) (k : A -> M B) : M B :=
  fun s =>
    let r := m s in
    match outcome r with
    | Fulfilled a => prepend (emitted r) (k a (final r))
    | Rejected e => MkRun (Rejected e) (final r) (emitted r)
    end.

(** [try { m } catch (error) { handler error }] *)
Definition tryCatch {A} (m : M A) (handler : JsError -> M A) : M A :=
  fun s =>
    let r := m s in
    match outcome r with
    | Fulfilled a => r
    | Rejected e => prepend (emitted r) (handler e (final r))
    end.

Definition emit (e : Ev) : M unit := fun s => MkRun (Fulfilled tt) s [e].

Definition gets {A} (f : St -> A) : M A := fun s => MkRun (Fulfilled (f s)) s [].

(** A call to a collaborator: it answers from the current state, may change
    it, and the call is recorded together with its answer. *)
Definition call {A} (f : St -> Outcome A * St) (record : Outcome A -> Ev) : M A :=
  fun s => let '(o, s') := f s in MkRun o s' [record o].

End Effects.

Arguments Run : clear implicits.
Arguments M : clear implicits.
Arguments MkRun {St Ev A} outcome final emitted.
Arguments outcome {St Ev A} r.
Arguments final {St Ev A} r.
Arguments emitted {St Ev A} r.

End Effects.
Export Effects.

Declare Scope js_scope.
Delimit Scope js_scope with js.
Notation "x <- m ;; k" := (bind m (fun x => k))
  (at level 100, m at next level, right associativity) : js_scope.
Notation "m ;;; k" := (bind m (fun _ => k))
  (at level 100, right associativity) : js_scope.
Open Scope js_scope.

(** ** The object store

  The caller's [EnvelopeKeys] is a JavaScript object whose [recipientKeys]
  and [routingKeys] fields hold references to arrays.  [packMessage] binds a
  local variable to the caller's [recipientKeys] array and later rebinds it
  to fresh arrays, so objects and arrays live in a store and are named by
  their location. *)

Module Store.

Definition Key : Type := string.
Definition loc : Type := nat.

Inductive Cell : Type :=
| ArrayCell (elements : list Key)
| KeysCell (recipientKeys routingKeys : loc) (senderKey : option Key).

Definition alloc (c : Cell) (h : gmap loc Cell) : loc * gmap loc Cell :=
  let l := fresh (dom h) in (l, <[l := c]> h).

End Store.
Export Store.

(** ** EnvelopeService *)

Module Envelope.

(** [{ useLegacyDidSovPrefix }], the option bag of [toJSON]. *)
Record ToJSONOptions : Type := { useLegacyDidSovPrefix : bool }.

(** The part of [AgentConfig] the service reads. *)
Record AgentConfig : Type := { config_useLegacyDidSovPrefix : bool }.

Section Service.

(** Serialized messages, wire messages and the wallet's own state are
    opaque to the service. *)
Context {Json WireMessage WalletState : Type}.

(** [AgentMessage]: the payload is used through its [toJSON] method only. *)
Record AgentMessage : Type := { toJSON : ToJSONOptions -> Json }.

(** [new ForwardMessage({ to, message })]; [to] is [undefined] when the
    indexed array has no first element. *)
Record ForwardMessage : Type := { to : option Key; message : WireMessage }.

(** The value view of the caller's object: what its fields and the arrays
    they reference hold. *)
Record EnvelopeKeys : Type :=
  { recipientKeys : list Key; routingKeys : list Key; senderKey : option Key }.

(** [{ message, senderKey, recipientKey }], the answer of one decryption. *)
Record UnpackedMessageContext : Type :=
  { ctx_message : Json; ctx_senderKey : option Key; ctx_recipientKey : option Key }.

(** The [Wallet] interface, as far as the service uses it.  A call answers
    from the wallet's state and may change it; the wallet is handed the
    contents of the arrays and does not write to the caller's objects. *)
Class Wallet : Type :=
  { pack : Json -> list Key -> option Key -> WalletState -> Outcome WireMessage * WalletState;
    unpack : WireMessage -> WalletState -> Outcome UnpackedMessageContext * WalletState }.

Record World : Type := { heap : gmap loc Cell; walletState : WalletState }.

Inductive Receiver : Type :=
| OfPayload
| OfForward (forwardMessage : ForwardMessage).

(** The calls the service makes to its collaborators. *)
Inductive Event : Type :=
| ToJSONCall (receiver : Receiver) (options : ToJSONOptions)
| DebugCall (text : string) (data : option ForwardMessage)
| PackCall (message : Json) (recipients : list Key) (sender : option Key)
           (result : Outcome WireMessage)
| UnpackCall (packedMessage : WireMessage) (result : Outcome UnpackedMessageContext).

(** The members of the service: [this.wallet] and [this.config]
    ([this.logger] only receives [DebugCall]s). *)
Context (wallet : Wallet) (config : AgentConfig).

(** [ForwardMessage] (modules/routing/messages) and the rendering of
    [message['@type']] in the log line are not part of the sources; they
    are parameters. *)
Context (ForwardMessage_toJSON : ForwardMessage -> ToJSONOptions -> Json).
Context (typeText : Json -> string).

Local Abbreviation Comp := (M World Event).

(** *** Store access *)

Definition lookupCell (l : loc) : Comp (option Cell) := gets (fun w => heap w !! l).

(** Reading the fields of [keys]. *)
Definition readKeys (keys : loc) : Comp (loc * loc * option Key) :=
  c <- lookupCell keys ;;
  match c with
  | Some (KeysCell r t s) => ret (r, t, s)
  | _ => throw (TypeError "Cannot destructure keys")
  end.

(** The contents of an array, as a callee or a [for...of] sees them. *)
Definition readArray (a : loc) : Comp (list Key) :=
  c <- lookupCell a ;;
  match c with
  | Some (ArrayCell elements) => ret elements
  | _ => throw (TypeError "not an array")
  end.

(** [a[i]]: [undefined] past the end. *)
Definition arrayIndex (a : loc) (i : nat) : Comp (option Key) :=
  elements <- readArray a ;; ret (elements !! i).

(** An array literal. *)
Definition newArray (elements : list Key) : Comp loc :=
  fun w =>
    let '(l, h) := alloc (ArrayCell elements) (heap w) in
    MkRun (Fulfilled l) {| heap := h; walletState := walletState w |} [].

(** *** Collaborators *)

Definition payload_toJSON (payload : AgentMessage) (options : ToJSONOptions) : Comp Json :=
  emit (ToJSONCall OfPayload options) ;;; ret (toJSON payload options).

Definition forward_toJSON (forwardMessage : ForwardMessage) (options : ToJSONOptions) : Comp Json :=
  emit (ToJSONCall (OfForward forwardMessage) options) ;;;
  ret (ForwardMessage_toJSON forwardMessage options).

Definition logger_debug (text : string) (data : option ForwardMessage) : Comp unit :=
  emit (DebugCall text data).

Definition wallet_pack (message : Json) (recipients : loc) (sender : option Key)
  : Comp WireMessage :=
  rs <- readArray recipients ;;
  call (fun w =>
          let '(o, ws) := pack message rs sender (walletState w) in
          (o, {| heap := heap w; walletState := ws |}))
       (PackCall message rs sender).

Definition wallet_unpack (packedMessage : WireMessage) : Comp UnpackedMessageContext :=
  call (fun w =>
          let '(o, ws) := unpack packedMessage (walletState w) in
          (o, {| heap := heap w; walletState := ws |}))
       (UnpackCall packedMessage).

(** *** packMessage *)

Definition legacyOption : ToJSONOptions :=
  {| useLegacyDidSovPrefix := config_useLegacyDidSovPrefix config |}.

(** The body of [for (const routingKey of routingKeys)], iterated; the loop
    variables are [recipientKeys] and [wireMessage].  No call made during the
    loop writes to an existing array, so the iterator yields the elements the
    array holds when the loop starts. *)
Fixpoint forwardLoop (routingKeys : list Key) (recipientKeys : loc)
         (wireMessage : WireMessage) : Comp WireMessage :=
  match routingKeys with
  | [] => ret wireMessage
  | routingKey :: rest =>
      first <- arrayIndex recipientKeys 0 ;;
      let forwardMessage := {| to := first; message := wireMessage |} in
      recipientKeys <- newArray [routingKey] ;;
      logger_debug "Forward message created" (Some forwardMessage) ;;;
      forwardJson <- forward_toJSON forwardMessage legacyOption ;;
      argument <- newArray [routingKey] ;;
      wireMessage <- wallet_pack forwardJson argument None ;;
      forwardLoop rest recipientKeys wireMessage
  end.

Definition packMessage (payload : AgentMessage) (keys : loc) : Comp WireMessage :=
  fields <- readKeys keys ;;
  let '(recipientKeys, routingKeys, senderKey) := fields in
  message <- payload_toJSON payload legacyOption ;;
  logger_debug ("Pack outbound message " +:+ typeText message) None ;;;
  wireMessage <- wallet_pack message recipientKeys (nullish senderKey None) ;;
  hops <- readArray routingKeys ;;
  forwardLoop hops recipientKeys wireMessage.

(** *** unpackMessage *)

Definition unpackMessage (packedMessage : WireMessage) : Comp UnpackedMessageContext :=
  wallet_unpack packedMessage.

End Service.

Arguments AgentMessage : clear implicits.
Arguments ForwardMessage : clear implicits.
Arguments UnpackedMessageContext : clear implicits.
Arguments Wallet : clear implicits.
Arguments World : clear implicits.
Arguments Receiver : clear implicits.
Arguments Event : clear implicits.

End Envelope.

(** ** IndyIssuerService.createCredential *)

Module Issuer.

(** [{ base_dir: dirname }] *)
Record TailsReaderConfig : Type := { base_dir : string }.

Section Service.

(** The indy-sdk's data and the state behind the collaborators are opaque. *)
Context {CredOffer CredReq CredValues Cred Env : Type}.

Definition CredRevocId : Type := string.
Definition BlobReaderHandle : Type := Z.
Definition WalletHandle : Type := Z.

Record CreateCredentialOptions : Type :=
  { credentialOffer : CredOffer;
    credentialRequest : CredReq;
    credentialValues : CredValues;
    revocationRegistryId : option string;
    tailsFilePath : option string }.

(** What the service reaches through [this.indy], [this.wallet] and
    [this.fileSystem], and the two helpers it imports from utils/, none of
    which is part of the sources. *)
Class Collaborators : Type :=
  { wallet_handle : Env -> Outcome WalletHandle;
    indy_issuerCreateCredential :
      WalletHandle -> CredOffer -> CredReq -> CredValues -> option string ->
      BlobReaderHandle -> Env -> Outcome (Cred * CredRevocId) * Env;
    indy_openBlobStorageReader :
      string -> TailsReaderConfig -> Env -> Outcome BlobReaderHandle * Env;
    fileSystem_exists : string -> Env -> Outcome bool * Env;
    getDirFromFilePath : string -> string;
    isIndyError : JsError -> bool }.

Inductive Event : Type :=
| HandleRead (result : Outcome WalletHandle)
| ExistsCall (path : string) (result : Outcome bool)
| OpenBlobStorageReaderCall (type : string) (config : TailsReaderConfig)
    (result : Outcome BlobReaderHandle)
| IssuerCreateCredentialCall (handle : WalletHandle) (offer : CredOffer)
    (request : CredReq) (values : CredValues) (revRegId : option string)
    (tailsReaderHandle : BlobReaderHandle) (result : Outcome (Cred * CredRevocId)).

Context (collaborators : Collaborators).

Local Abbreviation Comp := (M Env Event).

(** [catch (error) { if (isIndyError(error)) throw new IndySdkError(error); throw error }] *)
Definition rethrow {A} (error : JsError) : Comp A :=
  if isIndyError error then throw (IndySdkError error) else throw error.

Definition createTailsReader (tailsFilePath : string) : Comp BlobReaderHandle :=
  tryCatch
    (tailsFileExists <- call (fileSystem_exists tailsFilePath) (ExistsCall tailsFilePath) ;;
     let dirname := getDirFromFilePath tailsFilePath in
     if negb tailsFileExists
     then throw (AriesFrameworkError ("Tails file does not exist at path " +:+ tailsFilePath))
     else
       let tailsReaderConfig := {| base_dir := dirname |} in
       call (indy_openBlobStorageReader "default" tailsReaderConfig)
            (OpenBlobStorageReaderCall "default" tailsReaderConfig))
    rethrow.

Definition createCredential (options : CreateCredentialOptions)
  : Comp (Cred * CredRevocId) :=
  let revocationRegistryId := revocationRegistryId options in
  let tailsFilePath := tailsFilePath options in
  tryCatch
    (tailsReaderHandle <-
       (if truthy tailsFilePath
        then createTailsReader (default EmptyString tailsFilePath)
        else ret 0%Z) ;;
     if truthy revocationRegistryId || truthy tailsFilePath
     then throw (AriesFrameworkError "Revocation not supported yet")
     else
       handle <- call (fun env => (wallet_handle env, env)) HandleRead ;;
       created <- call (indy_issuerCreateCredential handle
                          (credentialOffer options) (credentialRequest options)
                          (credentialValues options)
                          (nullish revocationRegistryId None) tailsReaderHandle)
                       (IssuerCreateCredentialCall handle
                          (credentialOffer options) (credentialRequest options)
                          (credentialValues options)
                          (nullish revocationRegistryId None) tailsReaderHandle) ;;
       let '(credential, credentialRevocationId) := created in
       ret (credential, credentialRevocationId))
    rethrow.

(** The revocation registry id and the tails reader handle of each
    [indy.issuerCreateCredential] invocation, in order. *)
Definition issuerCalls (evs : list Event) : list (option string * BlobReaderHandle) :=
  omap (fun e => match e with
                 | IssuerCreateCredentialCall _ _ _ _ revRegId tailsReaderHandle _ =>
                     Some (revRegId, tailsReaderHandle)
                 | _ => None
                 end) evs.

(** The paths asked of [fileSystem.exists], in order. *)
Definition existsCalls (evs : list Event) : list string :=
  omap (fun e => match e with ExistsCall path _ => Some path | _ => None end) evs.

(** The type and the configuration of each [indy.openBlobStorageReader]
    invocation, in order. *)
Definition readerCalls (evs : list Event) : list (string * TailsReaderConfig) :=
  omap (fun e => match e with
                 | OpenBlobStorageReaderCall type config _ => Some (type, config)
                 | _ => None
                 end) evs.

(** What the [catch] block of the service throws for a caught error. *)
Definition translated (error : JsError) : JsError :=
  if isIndyError error then IndySdkError error else error.

End Service.

Arguments CreateCredentialOptions : clear implicits.
Arguments Collaborators : clear implicits.
Arguments Event : clear implicits.

End Issuer.

(** ** IndyIssuerService: schemas, credential definitions and offers *)

Module IssuerDefinitions.

(** The literal type ['CL']. *)
Inductive SignatureType : Type := CL.

(** [{ support_revocation: supportRevocation }] *)
Record CredDefConfig : Type := { support_revocation : bool }.

Section Service.

Context {Schema CredDef CredOffer Env : Type}.

Definition SchemaId : Type := string.
Definition CredDefId : Type := string.

Record CreateSchemaOptions : Type :=
  { originDid : string; name : string; version : string; attributes : list string }.

(** The optional fields are absent ([undefined]) or given. *)
Record CreateCredentialDefinitionOptions : Type :=
  { issuerDid : string;
    schema : Schema;
    tag : option string;
    signatureType : option SignatureType;
    supportRevocation : option bool }.

(** What the three methods reach through [this.indy] and [this.wallet], and
    the error guard of utils/indyError. *)
Class Collaborators : Type :=
  { wallet_handle : Env -> Outcome Issuer.WalletHandle;
    indy_issuerCreateSchema :
      string -> string -> string -> list string -> Env -> Outcome (SchemaId * Schema) * Env;
    indy_issuerCreateAndStoreCredentialDef :
      Issuer.WalletHandle -> string -> Schema -> string -> SignatureType ->
      CredDefConfig -> Env -> Outcome (CredDefId * CredDef) * Env;
    indy_issuerCreateCredentialOffer :
      Issuer.WalletHandle -> CredDefId -> Env -> Outcome CredOffer * Env;
    isIndyError : JsError -> bool }.

Inductive Event : Type :=
| HandleRead (result : Outcome Issuer.WalletHandle)
| CreateSchemaCall (originDid name version : string) (attributes : list string)
    (result : Outcome (SchemaId * Schema))
| CreateAndStoreCredentialDefCall (handle : Issuer.WalletHandle) (issuerDid : string)
    (schema : Schema) (tag : string) (signatureType : SignatureType)
    (config : CredDefConfig) (result : Outcome (CredDefId * CredDef))
| CreateCredentialOfferCall (handle : Issuer.WalletHandle)
    (credentialDefinitionId : CredDefId) (result : Outcome CredOffer).

Context (collaborators : Collaborators).

Local Abbreviation Comp := (M Env Event).

(** What the [catch] block of each method throws for a caught error. *)
Definition translated (error : JsError) : JsError :=
  if isIndyError error then IndySdkError error else error.

(** [catch (error) { if (isIndyError(error)) throw new IndySdkError(error); throw error }] *)
Definition rethrow {A} (error : JsError) : Comp A :=
  if isIndyError error then throw (IndySdkError error) else throw error.

(** [this.wallet.handle] *)
Definition readHandle : Comp Issuer.WalletHandle :=
  call (fun env => (wallet_handle env, env)) HandleRead.

Definition createSchema (options : CreateSchemaOptions) : Comp Schema :=
  tryCatch
    (created <- call (indy_issuerCreateSchema (originDid options) (name options)
                        (version options) (attributes options))
                     (CreateSchemaCall (originDid options) (name options)
                        (version options) (attributes options)) ;;
     let '(_, schema) := created in
     ret schema)
    rethrow.

Definition createCredentialDefinition (options : CreateCredentialDefinitionOptions)
  : Comp CredDef :=
  let tag := default "default" (tag options) in
  let signatureType := default CL (signatureType options) in
  let supportRevocation := default false (supportRevocation options) in
  tryCatch
    (handle <- readHandle ;;
     let config := {| support_revocation := supportRevocation |} in
     created <- call (indy_issuerCreateAndStoreCredentialDef handle (issuerDid options)
                        (schema options) tag signatureType config)
                     (CreateAndStoreCredentialDefCall handle (issuerDid options)
                        (schema options) tag signatureType config) ;;
     let '(_, credentialDefinition) := created in
     ret credentialDefinition)
    rethrow.

Definition createCredentialOffer (credentialDefinitionId : CredDefId) : Comp CredOffer :=
  tryCatch
    (handle <- readHandle ;;
     call (indy_issuerCreateCredentialOffer handle credentialDefinitionId)
          (CreateCredentialOfferCall handle credentialDefinitionId))
    rethrow.

(** The tag, signature type and configuration of each
    [indy.issuerCreateAndStoreCredentialDef] invocation, in order. *)
Definition credDefCalls (evs : list Event) : list (string * SignatureType * CredDefConfig) :=
  omap (fun e => match e with
                 | CreateAndStoreCredentialDefCall _ _ _ tag signatureType config _ =>
                     Some (tag, signatureType, config)
                 | _ => None
                 end) evs.

(** The calls that went to [this.indy] (reading the wallet handle is not one). *)
Definition indyCalls (evs : list Event) : list Event :=
  omap (fun e => match e with HandleRead _ => None | _ => Some e end) evs.

End Service.

Arguments CreateCredentialDefinitionOptions : clear implicits.
Arguments Collaborators : clear implicits.
Arguments Event : clear implicits.

End IssuerDefinitions.

(** ** IndyVerifierService.verifyProof *)

Module Verifier.
Section Service.

(** Proof requests, proofs, schemas and credential definitions are opaque;
    the revocation data are objects keyed by identifier, [{}] being the empty
    one. *)
Context {ProofRequest Proof Schemas CredentialDefs RevRegDef RevState Env : Type}.

Record VerifyProofOptions : Type :=
  { proofRequest : ProofRequest;
    proof : Proof;
    schemas : Schemas;
    credentialDefinitions : CredentialDefs;
    revocationRegistryDefinitions : option (gmap string RevRegDef);
    revocationStates : option (gmap string RevState) }.

Class Collaborators : Type :=
  { indy_verifierVerifyProof :
      ProofRequest -> Proof -> Schemas -> CredentialDefs ->
      gmap string RevRegDef -> gmap string RevState -> Env -> Outcome bool * Env;
    isIndyError : JsError -> bool }.

Inductive Event : Type :=
| VerifierVerifyProofCall (proofRequest : ProofRequest) (proof : Proof)
    (schemas : Schemas) (credentialDefinitions : CredentialDefs)
    (revocationRegistryDefinitions : gmap string RevRegDef)
    (revocationStates : gmap string RevState) (result : Outcome bool).

Context (collaborators : Collaborators).

Local Abbreviation Comp := (M Env Event).

(** What the [catch] block throws for a caught error. *)
Definition translated (error : JsError) : JsError :=
  if isIndyError error then IndySdkError error else error.

Definition rethrow {A} (error : JsError) : Comp A :=
  if isIndyError error then throw (IndySdkError error) else throw error.

Definition verifyProof (options : VerifyProofOptions) : Comp bool :=
  let revocationRegistryDefinitions := default ∅ (revocationRegistryDefinitions options) in
  let revocationStates := default ∅ (revocationStates options) in
  tryCatch
    (call (indy_verifierVerifyProof (proofRequest options) (proof options)
             (schemas options) (credentialDefinitions options)
             revocationRegistryDefinitions revocationStates)
          (VerifierVerifyProofCall (proofRequest options) (proof options)
             (schemas options) (credentialDefinitions options)
             revocationRegistryDefinitions revocationStates))
    rethrow.

End Service.

Arguments VerifyProofOptions : clear implicits.
Arguments Collaborators : clear implicits.
Arguments Event : clear implicits.

End Verifier.

(** ** What a run shows: projections of the emitted calls *)

Module Observations.
Section Observations.
Import Envelope.
Context {Json WireMessage WalletState : Type}.

Local Abbreviation Event := (Envelope.Event Json WireMessage).

(** The caller's object [keys] holds the values [ek] in store [h]. *)
Definition keys_at (h : gmap loc Cell) (keys : loc) (ek : EnvelopeKeys) : Prop :=
  exists r t,
    h !! keys = Some (KeysCell r t (senderKey ek)) /\
    h !! r = Some (ArrayCell (recipientKeys ek)) /\
    h !! t = Some (ArrayCell (routingKeys ek)).

(** The sender key argument of each [wallet.pack] invocation, in order. *)
Definition packSenders (evs : list Event) : list (option Key) :=
  omap (fun e => match e with PackCall _ _ s _ => Some s | _ => None end) evs.

(** Number of invocations of [wallet.pack]. *)
Definition packCount (evs : list Event) : nat := length (packSenders evs).

(** The recipient argument of each [wallet.pack] invocation, in order. *)
Definition packRecipients (evs : list Event) : list (list Key) :=
  omap (fun e => match e with PackCall _ r _ _ => Some r | _ => None end) evs.

(** The errors of the [wallet.pack] invocations that rejected. *)
Definition packFailures (evs : list Event) : list JsError :=
  omap (fun e => match e with PackCall _ _ _ (Rejected err) => Some err | _ => None end) evs.

(** The forward messages constructed, in order (each one is logged right
    after its construction). *)
Definition forwardsCreated (evs : list Event) : list (ForwardMessage WireMessage) :=
  omap (fun e => match e with DebugCall _ (Some f) => Some f | _ => None end) evs.

(** The [useLegacyDidSovPrefix] setting of each [toJSON] call, in order. *)
Definition serializationFlags (evs : list Event) : list bool :=
  omap (fun e => match e with
                 | ToJSONCall _ o => Some (useLegacyDidSovPrefix o)
                 | _ => None
                 end) evs.

(** The capability's [unpack] returns what its [pack] was given: the message
    and the sender key (absent when none was given). *)
Definition unpack_inverts_pack (wallet : Wallet Json WireMessage WalletState) : Prop :=
  forall m R S ws wire ws',
    pack m R S ws = (Fulfilled wire, ws') ->
    exists ctx ws'',
      unpack wire ws' = (Fulfilled ctx, ws'') /\
      ctx_message ctx = m /\ ctx_senderKey ctx = S.

Context (wallet : Wallet Json WireMessage WalletState) (config : AgentConfig).
Context (ForwardMessage_toJSON : ForwardMessage WireMessage -> ToJSONOptions -> Json).

(** The calls of the forwarding loop in terms of values alone: [first] is
    what [recipientKeys[0]] reads when the iteration starts. *)
Fixpoint forwardTrace (hops : list Key) (first : option Key) (wireMessage : WireMessage)
         (ws : WalletState) : Outcome WireMessage * WalletState * list Event :=
  match hops with
  | [] => (Fulfilled wireMessage, ws, [])
  | routingKey :: rest =>
      let forwardMessage := {| to := first; message := wireMessage |} in
      let forwardJson := ForwardMessage_toJSON forwardMessage (legacyOption config) in
      let '(o, ws') := pack forwardJson [routingKey] None ws in
      let evs := [DebugCall "Forward message created" (Some forwardMessage);
                  ToJSONCall (OfForward forwardMessage) (legacyOption config);
                  PackCall forwardJson [routingKey] None o] in
      match o with
      | Fulfilled wireMessage' =>
          let '(o', ws'', evs') := forwardTrace rest (Some routingKey) wireMessage' ws' in
          (o', ws'', evs ++ evs')
      | Rejected e => (Rejected e, ws', evs)
      end
  end.

Context (typeText : Json -> string).

(** The calls of [packMessage] in terms of values alone. *)
Definition packTrace (payload : AgentMessage Json) (ek : EnvelopeKeys) (ws : WalletState)
  : Outcome WireMessage * WalletState * list Event :=
  let message := toJSON payload (legacyOption config) in
  let '(o, ws') := pack message (recipientKeys ek) (nullish (senderKey ek) None) ws in
  let evs := [ToJSONCall OfPayload (legacyOption config);
              DebugCall ("Pack outbound message " +:+ typeText message) None;
              PackCall message (recipientKeys ek) (nullish (senderKey ek) None) o] in
  match o with
  | Fulfilled wireMessage =>
      let '(o', ws'', evs') :=
        forwardTrace (routingKeys ek) (recipientKeys ek !! 0) wireMessage ws' in
      (o', ws'', evs ++ evs')
  | Rejected e => (Rejected e, ws', evs)
  end.

(** The world after one iteration of the loop: two array literals were
    allocated and the wallet moved on. *)
Definition afterHop (routingKey : Key) (w : World WalletState) (ws : WalletState)
  : World WalletState :=
  {| heap := (alloc (ArrayCell [routingKey])
                (alloc (ArrayCell [routingKey]) (heap w)).2).2;
     walletState := ws |}.

(** What a run of the service shows besides the store. *)
Definition view {A} (r : Run (World WalletState) Event A)
  : Outcome A * WalletState * list Event :=
  (outcome r, walletState (final r), emitted r).

(** The message and the answer of each [wallet.pack] invocation, in order. *)
Definition packCalls (evs : list Event) : list (Json * Outcome WireMessage) :=
  omap (fun e => match e with PackCall m _ _ o => Some (m, o) | _ => None end) evs.

(** The capability's [unpack] returns what its [pack] was given, whenever it
    is asked: decryption does not depend on the wallet's state. *)
Definition unpack_inverts_pack_anywhere (wal : Wallet Json WireMessage WalletState) : Prop :=
  forall m R S ws wire ws',
    pack (Wallet := wal) m R S ws = (Fulfilled wire, ws') ->
    forall ws0, exists ctx ws1,
      unpack (Wallet := wal) wire ws0 = (Fulfilled ctx, ws1) /\
      ctx_message ctx = m /\ ctx_senderKey ctx = S.

End Observations.
End Observations.

(** ** Stand-in collaborators, for running the services on concrete inputs *)

Module Fixture.
Import Envelope.

(** Serialized messages and sealed envelopes of the stand-in wallet: an
    object is the chain of its fields. *)
Inductive Doc : Type :=
| DText (text : string)
| DEmpty
| DField (name : string) (value : Doc) (rest : Doc)
| DSealed (content : Doc) (recipients : list Key) (sender : option Key).

Definition typePrefix (options : ToJSONOptions) : string :=
  if useLegacyDidSovPrefix options
  then "did:sov:BzCbsNYhMrjHiqZDTUASHg;spec/"
  else "https://didcomm.org/".

(** A trust ping. *)
Definition ping : AgentMessage Doc :=
  {| toJSON := fun options =>
       DField "@type" (DText (typePrefix options +:+ "trust_ping/1.0/ping")) DEmpty |}.

(** Modelled from the spec: the serialization of [ForwardMessage], whose class
    is not part of the sources: a keyed structure with a stable message-type
    identifier, a [to] field (left out when absent) and a [message] field
    holding the nested wire message. *)
Definition forwardDoc (forwardMessage : ForwardMessage Doc) (options : ToJSONOptions) : Doc :=
  DField "@type" (DText (typePrefix options +:+ "routing/1.0/forward"))
    (let body := DField "message" (message forwardMessage) DEmpty in
     match to forwardMessage with
     | Some key => DField "to" (DText key) body
     | None => body
     end).

Definition typeOfDoc (doc : Doc) : string :=
  match doc with
  | DField "@type" (DText t) _ => t
  | _ => "undefined"
  end.

(** The error of the stand-in wallet for a key it does not know. *)
Definition notFound : JsError := Foreign "IndyError" "WalletItemNotFound".

(** A wallet that seals by recording its arguments, counts its operations and
    rejects every recipient list that holds one of the [unknown] keys. *)
Definition standInWallet (unknown : list Key) : Wallet Doc Doc nat :=
  {| pack := fun content recipients sender n =>
       if existsb (fun k => bool_decide (k ∈ unknown)) recipients
       then (Rejected notFound, S n)
       else (Fulfilled (DSealed content recipients sender), S n);
     unpack := fun packed n =>
       match packed with
       | DSealed content recipients sender =>
           (Fulfilled {| ctx_message := content; ctx_senderKey := sender;
                         ctx_recipientKey := head recipients |}, S n)
       | _ => (Rejected (Foreign "IndyError" "CommonInvalidStructure"), S n)
       end |}.

Definition currentConfig : AgentConfig := {| config_useLegacyDidSovPrefix := false |}.
Definition legacyConfig : AgentConfig := {| config_useLegacyDidSovPrefix := true |}.

(** A store holding one [EnvelopeKeys] object at location 0 and its two
    arrays at locations 1 and 2. *)
Definition storeOf (ek : EnvelopeKeys) : gmap loc Cell :=
  <[0 := KeysCell 1 2 (senderKey ek)]>
    (<[1 := ArrayCell (recipientKeys ek)]>
       (<[2 := ArrayCell (routingKeys ek)]> ∅)).

Definition worldOf (ek : EnvelopeKeys) : World nat :=
  {| heap := storeOf ek; walletState := 0 |}.

(** The scenarios: no routing; one mediator and an authenticated payload;
    two mediators; no recipient at all. *)
Definition scenarioA : EnvelopeKeys :=
  {| recipientKeys := ["R1"]; routingKeys := []; senderKey := None |}.
Definition scenarioB : EnvelopeKeys :=
  {| recipientKeys := ["R1"]; routingKeys := ["M1"]; senderKey := Some "S1" |}.
Definition scenarioC : EnvelopeKeys :=
  {| recipientKeys := ["R1"]; routingKeys := ["M1"; "M2"]; senderKey := None |}.
Definition scenarioD : EnvelopeKeys :=
  {| recipientKeys := []; routingKeys := []; senderKey := None |}.

(** Two recipients, an authenticated payload, no routing. *)
Definition scenarioE : EnvelopeKeys :=
  {| recipientKeys := ["R1"; "R2"]; routingKeys := []; senderKey := Some "S1" |}.


Definition pack_with (unknown : list Key) (config : AgentConfig) (ek : EnvelopeKeys)
  : Run (World nat) (Event Doc Doc) Doc :=
  packMessage (standInWallet unknown) config forwardDoc typeOfDoc ping 0 (worldOf ek).

(** The wire message a run returned. *)
Definition wireOf (r : Run (World nat) (Event Doc Doc) Doc) : Doc :=
  match outcome r with
  | Fulfilled wireMessage => wireMessage
  | Rejected _ => DEmpty
  end.

(** Stand-ins for the issuer's collaborators: the environment lists the files
    that exist. *)
Definition standInIssuer : Issuer.Collaborators string string string string (list string) :=
  {| Issuer.wallet_handle := fun _ => Fulfilled 1%Z;
     Issuer.indy_issuerCreateCredential := fun _ offer request values _ _ env =>
       (Fulfilled ("credential", "1"), env);
     Issuer.indy_openBlobStorageReader := fun _ _ env => (Fulfilled 7%Z, env);
     Issuer.fileSystem_exists := fun path env => (Fulfilled (bool_decide (path ∈ env)), env);
     Issuer.getDirFromFilePath := fun _ => "/tmp";
     Issuer.isIndyError := fun e =>
       match e with Foreign "IndyError" _ => true | _ => false end |}.

Definition credentialOptions (revocationRegistryId tailsFilePath : option string)
  : Issuer.CreateCredentialOptions string string string :=
  {| Issuer.credentialOffer := "offer";
     Issuer.credentialRequest := "request";
     Issuer.credentialValues := "values";
     Issuer.revocationRegistryId := revocationRegistryId;
     Issuer.tailsFilePath := tailsFilePath |}.

End Fixture.

(** Further stand-ins: an issuer whose blob storage fails, and the indy calls
    for schemas, credential definitions and offers behind a wallet that is
    open or not. *)

Module MoreFixture.
Import Fixture.

Definition storageError : JsError := Foreign "IndyError" "CommonIOError".

Definition brokenStorageIssuer
  : Issuer.Collaborators string string string string (list string) :=
  {| Issuer.wallet_handle := fun _ => Fulfilled 1%Z;
     Issuer.indy_issuerCreateCredential := fun _ offer request values _ _ env =>
       (Fulfilled ("credential", "1"), env);
     Issuer.indy_openBlobStorageReader := fun _ _ env => (Rejected storageError, env);
     Issuer.fileSystem_exists := fun path env => (Fulfilled (bool_decide (path ∈ env)), env);
     Issuer.getDirFromFilePath := fun _ => "/tmp";
     Issuer.isIndyError := fun e =>
       match e with Foreign "IndyError" _ => true | _ => false end |}.

Definition walletClosed : JsError :=
  AriesFrameworkError "Wallet has not been initialized yet".

(** Schemas and credential definitions are their names; the environment
    counts the calls made to indy. *)
Definition standInDefinitions (walletOpen : bool)
  : IssuerDefinitions.Collaborators string string string nat :=
  {| IssuerDefinitions.wallet_handle := fun _ =>
       if walletOpen then Fulfilled 1%Z else Rejected walletClosed;
     IssuerDefinitions.indy_issuerCreateSchema := fun originDid name version _ n =>
       (Fulfilled (originDid +:+ ":2:" +:+ name +:+ ":" +:+ version, name), S n);
     IssuerDefinitions.indy_issuerCreateAndStoreCredentialDef :=
       fun _ issuerDid schema tag _ _ n =>
         (Fulfilled (issuerDid +:+ ":3:CL:" +:+ schema +:+ ":" +:+ tag, schema +:+ ":" +:+ tag),
          S n);
     IssuerDefinitions.indy_issuerCreateCredentialOffer := fun _ credentialDefinitionId n =>
       (Fulfilled ("offer for " +:+ credentialDefinitionId), S n);
     IssuerDefinitions.isIndyError := fun e =>
       match e with Foreign "IndyError" _ => true | _ => false end |}.

(** A credential definition request with an empty tag and nothing else
    optional. *)
Definition emptyTagOptions : IssuerDefinitions.CreateCredentialDefinitionOptions string :=
  {| IssuerDefinitions.issuerDid := "issuer";
     IssuerDefinitions.schema := "degree";
     IssuerDefinitions.tag := Some EmptyString;
     IssuerDefinitions.signatureType := None;
     IssuerDefinitions.supportRevocation := None |}.

End MoreFixture.

(** * Properties *)

(** ** Computations *)

Module EffectFacts.
Section EffectFacts.
Context {St Ev : Type}.

Lemma prepend_nil {A} (r : Run St Ev A) : prepend [] r = r.
Proof. destruct r; reflexivity. Qed.

Lemma prepend_prepend {A} evs evs' (r : Run St Ev A) :
  prepend evs (prepend evs' r) = prepend (evs ++ evs') r.
Proof. unfold prepend; cbn [outcome final emitted]. by rewrite app_assoc. Qed.

Lemma bind_fulfilled {A B} (m : M St Ev A) (k : A -> M St Ev B) s a s' evs :
  m s = MkRun (Fulfilled a) s' evs ->
  bind m k s = prepend evs (k a s').
Proof. intros Hm. unfold bind. rewrite Hm. reflexivity. Qed.

Lemma bind_silent {A B} (m : M St Ev A) (k : A -> M St Ev B) s a s' :
  m s = MkRun (Fulfilled a) s' [] ->
  bind m k s = k a s'.
Proof. intros Hm. rewrite (bind_fulfilled _ _ _ _ _ _ Hm). apply prepend_nil. Qed.

Lemma bind_rejected {A B} (m : M St Ev A) (k : A -> M St Ev B) s e s' evs :
  m s = MkRun (Rejected e) s' evs ->
  bind m k s = MkRun (Rejected e) s' evs.
Proof. intros Hm. unfold bind. rewrite Hm. reflexivity. Qed.

Lemma bind_ret_run {A B} (a : A) (k : A -> M St Ev B) s : bind (ret a) k s = k a s.
Proof. by apply bind_silent. Qed.

Lemma bind_emit_run {B} (e : Ev) (k : unit -> M St Ev B) s :
  bind (emit e) k s = prepend [e] (k tt s).
Proof. by apply bind_fulfilled. Qed.

Lemma bind_bind_run {A B C} (m : M St Ev A) (f : A -> M St Ev B) (g : B -> M St Ev C) s :
  bind (bind m f) g s = bind m (fun a => bind (f a) g) s.
Proof.
  unfold bind, prepend. destruct (m s) as [[a|e] s1 evs1]; cbn [outcome final emitted].
  - destruct (f a s1) as [[b|e] s2 evs2]; cbn [outcome final emitted]; [|reflexivity].
    by rewrite app_assoc.
  - reflexivity.
Qed.

End EffectFacts.
End EffectFacts.
Import EffectFacts.

(** ** The store: allocation leaves every existing object as it is *)

Module StoreFacts.

Lemma alloc_fresh c (h : gmap loc Cell) : h !! (alloc c h).1 = None.
Proof. apply not_elem_of_dom, is_fresh. Qed.

Lemma alloc_lookup_new c (h : gmap loc Cell) :
  (alloc c h).2 !! (alloc c h).1 = Some c.
Proof. apply lookup_insert_eq. Qed.

Lemma alloc_lookup_old c (h : gmap loc Cell) l c' :
  h !! l = Some c' -> (alloc c h).2 !! l = Some c'.
Proof.
  intros Hl. unfold alloc; cbn [fst snd]. rewrite lookup_insert_ne; [done|].
  intros <-. pose proof (alloc_fresh c h) as Hf. cbn [alloc fst] in Hf. congruence.
Qed.

End StoreFacts.
Import StoreFacts.

(** ** EnvelopeService *)

Module EnvelopeFacts.
Import Envelope Observations.
Section EnvelopeFacts.
Context {Json WireMessage WalletState : Type}.
Context (wallet : Wallet Json WireMessage WalletState) (config : AgentConfig).
Context (ForwardMessage_toJSON : ForwardMessage WireMessage -> ToJSONOptions -> Json).
Context (typeText : Json -> string).

Local Abbreviation World := (Envelope.World WalletState).
Local Abbreviation Event := (Envelope.Event Json WireMessage).
Local Abbreviation forwardLoop := (forwardLoop wallet config ForwardMessage_toJSON).
Local Abbreviation packMessage := (packMessage wallet config ForwardMessage_toJSON typeText).
Local Abbreviation unpackMessage := (unpackMessage wallet).
Local Abbreviation forwardTrace := (forwardTrace wallet config ForwardMessage_toJSON).
Local Abbreviation packTrace := (packTrace wallet config ForwardMessage_toJSON typeText).
Local Abbreviation options := (legacyOption config).

(** *** Running the store accesses and the wallet *)

Lemma readArray_run (w : World) a elements :
  heap w !! a = Some (ArrayCell elements) ->
  readArray (Json:=Json) (WireMessage:=WireMessage) a w = MkRun (Fulfilled elements) w [].
Proof.
  intros Ha. unfold readArray, lookupCell.
  erewrite bind_silent by reflexivity. cbv beta. rewrite Ha. reflexivity.
Qed.

Lemma readKeys_run (w : World) keys r t s :
  heap w !! keys = Some (KeysCell r t s) ->
  readKeys (Json:=Json) (WireMessage:=WireMessage) keys w = MkRun (Fulfilled (r, t, s)) w [].
Proof.
  intros Hk. unfold readKeys, lookupCell.
  erewrite bind_silent by reflexivity. cbv beta. rewrite Hk. reflexivity.
Qed.

Lemma arrayIndex_run (w : World) a elements i :
  heap w !! a = Some (ArrayCell elements) ->
  arrayIndex (Json:=Json) (WireMessage:=WireMessage) a i w
    = MkRun (Fulfilled (elements !! i)) w [].
Proof.
  intros Ha. unfold arrayIndex.
  erewrite bind_silent by (apply readArray_run; exact Ha). reflexivity.
Qed.

Lemma newArray_run (w : World) elements :
  newArray (Json:=Json) (WireMessage:=WireMessage) elements w =
    MkRun (Fulfilled (alloc (ArrayCell elements) (heap w)).1)
          {| heap := (alloc (ArrayCell elements) (heap w)).2;
             walletState := walletState w |} [].
Proof. unfold newArray. destruct (alloc _ _). reflexivity. Qed.

(** A pack call followed by [k]: the call is recorded with its answer, and
    [k] runs only on a fulfilled answer. *)
Lemma bind_wallet_pack {B} (k : WireMessage -> M World Event B) (w : World)
      message recipients rs sender :
  heap w !! recipients = Some (ArrayCell rs) ->
  bind (wallet_pack wallet message recipients sender) k w =
    let answer := pack message rs sender (walletState w) in
    let w' := {| heap := heap w; walletState := answer.2 |} in
    match answer.1 with
    | Fulfilled wireMessage => prepend [PackCall message rs sender answer.1] (k wireMessage w')
    | Rejected e => MkRun (Rejected e) w' [PackCall message rs sender answer.1]
    end.
Proof.
  intros Hr. unfold wallet_pack. rewrite bind_bind_run.
  erewrite bind_silent by (apply readArray_run; exact Hr). cbv beta zeta.
  unfold bind at 1, call.
  destruct (pack _ _ _ _) as [[wireMessage|e] ws']; reflexivity.
Qed.

Lemma forwardLoop_step routingKey rest rl wireMessage (w : World) elements :
  heap w !! rl = Some (ArrayCell elements) ->
  forwardLoop (routingKey :: rest) rl wireMessage w =
    let forwardMessage := {| to := elements !! 0; message := wireMessage |} in
    let forwardJson := ForwardMessage_toJSON forwardMessage options in
    let answer := pack forwardJson [routingKey] None (walletState w) in
    let evs := [DebugCall "Forward message created" (Some forwardMessage);
                ToJSONCall (OfForward forwardMessage) options;
                PackCall forwardJson [routingKey] None answer.1] in
    match answer.1 with
    | Fulfilled wireMessage' =>
        prepend evs
          (forwardLoop rest (alloc (ArrayCell [routingKey]) (heap w)).1
                       wireMessage' (afterHop routingKey w answer.2))
    | Rejected e => MkRun (Rejected e) (afterHop routingKey w answer.2) evs
    end.
Proof.
  intros Hrl. cbn [Envelope.forwardLoop].
  erewrite bind_silent by (apply arrayIndex_run; exact Hrl). cbv beta.
  erewrite bind_silent by apply newArray_run. cbv beta.
  unfold logger_debug, forward_toJSON.
  rewrite bind_emit_run, bind_bind_run, bind_emit_run, bind_ret_run.
  erewrite bind_silent by apply newArray_run. cbv beta.
  erewrite bind_wallet_pack by (cbn [heap]; apply alloc_lookup_new).
  cbv zeta. cbn [heap walletState]. unfold afterHop.
  destruct (pack _ _ _ _) as [[wireMessage'|e] ws']; cbn [fst snd].
  - by rewrite !prepend_prepend.
  - reflexivity.
Qed.

Lemma view_prepend {A} evs (r : Run World Event A) :
  view (prepend evs r) = (outcome r, walletState (final r), evs ++ emitted r).
Proof. reflexivity. Qed.

(** The loop run on the store makes the calls of [forwardTrace]. *)
Lemma forwardLoop_view hops : forall rl wireMessage (w : World) elements,
  heap w !! rl = Some (ArrayCell elements) ->
  view (forwardLoop hops rl wireMessage w) =
    forwardTrace hops (elements !! 0) wireMessage (walletState w).
Proof.
  induction hops as [|routingKey rest IH]; intros rl wireMessage w elements Hrl.
  - reflexivity.
  - rewrite (forwardLoop_step _ _ _ _ _ _ Hrl). cbn [Observations.forwardTrace].
    cbv zeta.
    destruct (pack _ _ _ _) as [[wireMessage'|e] ws']; cbn [fst snd]; [|reflexivity].
    rewrite view_prepend.
    pose proof (IH (alloc (ArrayCell [routingKey]) (heap w)).1 wireMessage'
                   (afterHop routingKey w ws') [routingKey]) as Hrest.
    change ([routingKey] !! 0) with (Some routingKey) in Hrest.
    cbn [afterHop walletState] in Hrest. rewrite <- Hrest.
    + reflexivity.
    + cbn [afterHop heap]. apply alloc_lookup_old, alloc_lookup_new.
Qed.

(** [packMessage] up to the loop. *)
Lemma packMessage_run payload keys r t s recipients hops (w : World) :
  heap w !! keys = Some (KeysCell r t s) ->
  heap w !! r = Some (ArrayCell recipients) ->
  heap w !! t = Some (ArrayCell hops) ->
  packMessage payload keys w =
    let message := toJSON payload options in
    let answer := pack message recipients (nullish s None) (walletState w) in
    let w' := {| heap := heap w; walletState := answer.2 |} in
    let evs := [ToJSONCall OfPayload options;
                DebugCall ("Pack outbound message " +:+ typeText message) None;
                PackCall message recipients (nullish s None) answer.1] in
    match answer.1 with
    | Fulfilled wireMessage => prepend evs (forwardLoop hops r wireMessage w')
    | Rejected e => MkRun (Rejected e) w' evs
    end.
Proof.
  intros Hk Hr Ht. unfold Envelope.packMessage.
  erewrite bind_silent by (apply readKeys_run; exact Hk). cbv beta iota.
  unfold payload_toJSON, logger_debug.
  rewrite bind_bind_run, bind_emit_run, bind_ret_run, bind_emit_run.
  erewrite bind_wallet_pack by exact Hr.
  cbv zeta. destruct (pack _ _ _ _) as [[wireMessage|e] ws']; cbn [fst snd].
  - erewrite bind_silent by (apply readArray_run; exact Ht). cbv beta.
    by rewrite !prepend_prepend.
  - reflexivity.
Qed.

(** [packMessage] run on the store makes the calls of [packTrace]. *)
Lemma packMessage_view payload keys ek (w : World) :
  keys_at (heap w) keys ek ->
  view (packMessage payload keys w) = packTrace payload ek (walletState w).
Proof.
  intros (r & t & Hk & Hr & Ht).
  rewrite (packMessage_run _ _ _ _ _ _ _ _ Hk Hr Ht). unfold Observations.packTrace.
  cbv zeta. destruct (pack _ _ _ _) as [[wireMessage|e] ws']; cbn [fst snd]; [|reflexivity].
  rewrite view_prepend.
  pose proof (forwardLoop_view (routingKeys ek) r wireMessage
                {| heap := heap w; walletState := ws' |} _ Hr) as Hloop.
  cbn [walletState] in Hloop. by rewrite <- Hloop.
Qed.

(** *** The store is only extended *)

Lemma forwardLoop_extends hops : forall rl wireMessage (w : World) elements l c,
  heap w !! rl = Some (ArrayCell elements) ->
  heap w !! l = Some c ->
  heap (final (forwardLoop hops rl wireMessage w)) !! l = Some c.
Proof.
  induction hops as [|routingKey rest IH]; intros rl wireMessage w elements l c Hrl Hl.
  - exact Hl.
  - rewrite (forwardLoop_step _ _ _ _ _ _ Hrl). cbv zeta.
    destruct (pack _ _ _ _) as [[wireMessage'|e] ws']; cbn [fst snd prepend final].
    + eapply IH; unfold afterHop; cbn [heap].
      * apply alloc_lookup_old, alloc_lookup_new.
      * by do 2 apply alloc_lookup_old.
    + unfold afterHop; cbn [heap]. by do 2 apply alloc_lookup_old.
Qed.

Lemma packMessage_extends payload keys ek (w : World) l c :
  keys_at (heap w) keys ek ->
  heap w !! l = Some c ->
  heap (final (packMessage payload keys w)) !! l = Some c.
Proof.
  intros (r & t & Hk & Hr & Ht) Hl.
  rewrite (packMessage_run _ _ _ _ _ _ _ _ Hk Hr Ht). cbv zeta.
  destruct (pack _ _ _ _) as [[wireMessage|e] ws']; cbn [fst snd prepend final].
  - by apply (forwardLoop_extends _ r wireMessage
                {| heap := heap w; walletState := ws' |} (recipientKeys ek)).
  - exact Hl.
Qed.

(** *** The calls of the forwarding loop *)

(** One iteration of [forwardTrace]: either the pack call rejected and the
    trace ends, or the rest of the trace follows. *)
Ltac trace_step H IH :=
  cbn [Observations.forwardTrace] in H; cbv zeta in H;
  let wire := fresh "wireMessage'" in
  let e := fresh "e" in
  let ws := fresh "ws1" in
  let Hp := fresh "Hpack" in
  destruct (pack _ _ _ _) as [[wire|e] ws] eqn:Hp;
  [ let o := fresh "o1" in
    let ws2 := fresh "ws2" in
    let evs := fresh "evs1" in
    let Hrec := fresh "Hrec" in
    destruct (Observations.forwardTrace _ _ _ _ _ _ _) as [[o ws2] evs] eqn:Hrec;
    injection H as <- <- <-; specialize (IH _ _ _ _ _ _ Hrec)
  | injection H as <- <- <- ];
  unfold packCount, packSenders, packFailures, forwardsCreated, serializationFlags in *;
  cbn [app omap list_omap length].

Lemma forwardTrace_packCount hops : forall first wireMessage ws o ws' evs,
  forwardTrace hops first wireMessage ws = (o, ws', evs) ->
  packCount evs <= length hops /\
  (is_fulfilled o = true -> packCount evs = length hops).
Proof.
  induction hops as [|routingKey rest IH]; intros first wireMessage ws o ws' evs H.
  - injection H as <- <- <-. split; [cbn; lia | reflexivity].
  - trace_step H IH.
    + split; [lia | intros Ho; f_equal; tauto].
    + split; [lia | discriminate].
Qed.

Lemma forwardTrace_senders hops : forall first wireMessage ws o ws' evs,
  forwardTrace hops first wireMessage ws = (o, ws', evs) ->
  Forall (fun sender => sender = None) (packSenders evs).
Proof.
  induction hops as [|routingKey rest IH]; intros first wireMessage ws o ws' evs H.
  - injection H as <- <- <-. constructor.
  - trace_step H IH; repeat constructor; assumption.
Qed.

Lemma forwardTrace_flags hops : forall first wireMessage ws o ws' evs,
  forwardTrace hops first wireMessage ws = (o, ws', evs) ->
  Forall (fun flag => flag = config_useLegacyDidSovPrefix config) (serializationFlags evs).
Proof.
  induction hops as [|routingKey rest IH]; intros first wireMessage ws o ws' evs H.
  - injection H as <- <- <-. constructor.
  - trace_step H IH; repeat constructor; assumption.
Qed.

Lemma forwardTrace_flagCount hops : forall first wireMessage ws o ws' evs,
  forwardTrace hops first wireMessage ws = (o, ws', evs) ->
  length (serializationFlags evs) = packCount evs.
Proof.
  induction hops as [|routingKey rest IH]; intros first wireMessage ws o ws' evs H.
  - injection H as <- <- <-. reflexivity.
  - trace_step H IH; [f_equal; exact IH | reflexivity].
Qed.

Lemma forwardTrace_forwardCount hops : forall first wireMessage ws o ws' evs,
  forwardTrace hops first wireMessage ws = (o, ws', evs) ->
  length (forwardsCreated evs) = packCount evs.
Proof.
  induction hops as [|routingKey rest IH]; intros first wireMessage ws o ws' evs H.
  - injection H as <- <- <-. reflexivity.
  - trace_step H IH; [f_equal; exact IH | reflexivity].
Qed.

(** The address of the forward message of iteration [i] is what
    [recipientKeys[0]] read at the start of that iteration. *)
Lemma forwardTrace_addresses hops : forall first wireMessage ws o ws' evs,
  forwardTrace hops first wireMessage ws = (o, ws', evs) ->
  forall i fwd,
    forwardsCreated evs !! i = Some fwd ->
    to fwd = match i with 0 => first | S j => hops !! j end.
Proof.
  induction hops as [|routingKey rest IH];
    intros first wireMessage ws o ws' evs H i fwd Hi.
  - injection H as <- <- <-. discriminate.
  - unfold forwardsCreated in Hi. trace_step H IH.
    + cbn [app omap list_omap] in Hi. destruct i as [|i]; cbn in Hi.
      * injection Hi as <-. reflexivity.
      * rewrite (IH _ _ Hi). destruct i; reflexivity.
    + cbn [app omap list_omap] in Hi. destruct i as [|i]; cbn in Hi; [|discriminate].
      injection Hi as <-. reflexivity.
Qed.

(** A rejecting pack call ends the trace, and its error is the outcome. *)
Lemma forwardTrace_failures hops : forall first wireMessage ws o ws' evs,
  forwardTrace hops first wireMessage ws = (o, ws', evs) ->
  packFailures evs = match o with Fulfilled _ => [] | Rejected e => [e] end.
Proof.
  induction hops as [|routingKey rest IH]; intros first wireMessage ws o ws' evs H.
  - injection H as <- <- <-. reflexivity.
  - trace_step H IH; [exact IH | reflexivity].
Qed.

(** When the loop ran at least once and fulfilled, its result is the answer
    of the last pack call, made on the last forward message. *)
Lemma forwardTrace_outermost hops : forall first wireMessage ws wireMessage' ws' evs,
  hops <> [] ->
  forwardTrace hops first wireMessage ws = (Fulfilled wireMessage', ws', evs) ->
  exists fwd routingKey ws0,
    last (forwardsCreated evs) = Some fwd /\
    last hops = Some routingKey /\
    pack (ForwardMessage_toJSON fwd options) [routingKey] None ws0
      = (Fulfilled wireMessage', ws').
Proof.
  induction hops as [|routingKey rest IH];
    intros first wireMessage ws wireMessage' ws' evs Hne H; [done|].
  cbn [Observations.forwardTrace] in H; cbv zeta in H.
  destruct (pack _ _ _ _) as [[wire1|e] ws1] eqn:Hpack; [|discriminate].
  destruct (Observations.forwardTrace _ _ _ _ _ _ _) as [[o1 ws2] evs1] eqn:Hrec.
  injection H as -> <- <-.
  destruct rest as [|next rest].
  - injection Hrec as <- <- <-. eauto 10.
  - destruct (IH _ _ _ _ _ _ ltac:(done) Hrec) as (fwd & rk & ws0 & Hl & Hk & Hp).
    exists fwd, rk, ws0. split; [|split; [exact Hk | exact Hp]].
    unfold forwardsCreated in *. cbn [app omap list_omap].
    destruct (omap _ evs1); [discriminate | exact Hl].
Qed.

(** The last call of a rejected loop is the pack call that rejected. *)
Lemma forwardTrace_last_call hops : forall first wireMessage ws o ws' evs,
  forwardTrace hops first wireMessage ws = (o, ws', evs) ->
  forall e, o = Rejected e ->
    exists m r s, last evs = Some (PackCall m r s (Rejected e)).
Proof.
  induction hops as [|routingKey rest IH]; intros first wireMessage ws o ws' evs H e He.
  - injection H as <- <- <-. discriminate.
  - trace_step H IH.
    + destruct (IH e He) as (m & r & s & Hlast). exists m, r, s.
      destruct evs1; [discriminate | exact Hlast].
    + injection He as ->. eauto.
Qed.

(** *** The calls of packMessage *)

(** The two ways a run of [packMessage] goes: the innermost pack call
    rejects, or the loop runs on its answer. *)
Lemma packMessage_cases payload keys ek (w : World) :
  keys_at (heap w) keys ek ->
  let message := toJSON payload options in
  let sender := nullish (senderKey ek) None in
  let evs0 o := [ToJSONCall OfPayload options;
                 DebugCall ("Pack outbound message " +:+ typeText message) None;
                 PackCall message (recipientKeys ek) sender o] in
  (exists e ws',
      pack message (recipientKeys ek) sender (walletState w) = (Rejected e, ws') /\
      view (packMessage payload keys w) = (Rejected e, ws', evs0 (Rejected e))) \/
  (exists wireMessage ws1 o ws' evs,
      pack message (recipientKeys ek) sender (walletState w) = (Fulfilled wireMessage, ws1) /\
      forwardTrace (routingKeys ek) (recipientKeys ek !! 0) wireMessage ws1 = (o, ws', evs) /\
      view (packMessage payload keys w) = (o, ws', evs0 (Fulfilled wireMessage) ++ evs)).
Proof.
  intros Hkeys. rewrite (packMessage_view _ _ _ _ Hkeys).
  unfold Observations.packTrace. cbv zeta.
  destruct (pack _ _ _ _) as [[wireMessage|e] ws1] eqn:Hpack.
  - right. destruct (Observations.forwardTrace _ _ _ _ _ _ _) as [[o ws'] evs] eqn:Hloop.
    eauto 10.
  - left. eauto.
Qed.

(** Splitting a run of [packMessage] into these two cases. *)
Ltac pack_cases payload Hkeys :=
  let e := fresh "e" in
  let ws' := fresh "ws'" in
  let wire := fresh "inner" in
  let ws1 := fresh "ws1" in
  let o := fresh "o" in
  let evs := fresh "evs" in
  let Hpack := fresh "Hpack" in
  let Hloop := fresh "Hloop" in
  let Hview := fresh "Hview" in
  let Ho := fresh "Houtcome" in
  let Hs := fresh "Hstate" in
  let He := fresh "Hemitted" in
  destruct (packMessage_cases payload _ _ _ Hkeys)
    as [(e & ws' & Hpack & Hview)|(wire & ws1 & o & ws' & evs & Hpack & Hloop & Hview)];
  unfold view in Hview; injection Hview as Ho Hs He.

(** Reading the projections off the first three calls of a run. *)
Ltac observe :=
  unfold packCount, packSenders, packFailures, packRecipients, forwardsCreated,
    serializationFlags in *;
  cbn [app omap list_omap length].

Lemma nullish_None {A} (x : option A) : nullish x None = x.
Proof. by destruct x. Qed.

Lemma unpackMessage_outcome packedMessage (w : World) :
  outcome (unpackMessage packedMessage w) = (unpack packedMessage (walletState w)).1.
Proof.
  unfold Envelope.unpackMessage, wallet_unpack, call.
  by destruct (unpack _ _).
Qed.

(** *** Hop count and outermost layer *)

(** C1: when [packMessage] returns a wire message for keys with N routing
    keys, it has invoked the wallet's pack exactly N+1 times; and, the
    wallet's unpack inverting its pack, unpacking the returned wire message
    once yields the serialized payload when N = 0 and the serialization of a
    forward message (the last one constructed) when N >= 1. *)
Theorem packMessage_hop_count payload keys ek (w : World) wireMessage :
  keys_at (heap w) keys ek ->
  unpack_inverts_pack wallet ->
  outcome (packMessage payload keys w) = Fulfilled wireMessage ->
  let run := packMessage payload keys w in
  packCount (emitted run) = length (routingKeys ek) + 1 /\
  exists ctx,
    outcome (unpackMessage wireMessage (final run)) = Fulfilled ctx /\
    match routingKeys ek with
    | [] => ctx_message ctx = toJSON payload options
    | _ :: _ =>
        exists fwd,
          last (forwardsCreated (emitted run)) = Some fwd /\
          ctx_message ctx = ForwardMessage_toJSON fwd options
    end.
Proof.
  intros Hkeys Hinv Hok run. subst run. pack_cases payload Hkeys; [congruence|].
  rewrite Hok in Houtcome. subst o.
  rewrite Hemitted, unpackMessage_outcome, Hstate.
  split.
  - destruct (forwardTrace_packCount _ _ _ _ _ _ _ Hloop) as [_ Hn].
    observe. rewrite (Hn eq_refl). lia.
  - destruct (routingKeys ek) as [|routingKey rest] eqn:Hhops.
    + injection Hloop as -> <- <-.
      destruct (Hinv _ _ _ _ _ _ Hpack) as (ctx & ws'' & Hun & Hm & _).
      exists ctx. rewrite Hun. done.
    + assert (routingKey :: rest <> []) as Hne by done.
      destruct (forwardTrace_outermost _ _ _ _ _ _ _ Hne Hloop)
        as (fwd & rk & ws0 & Hlast & _ & Hp).
      destruct (Hinv _ _ _ _ _ _ Hp) as (ctx & ws'' & Hun & Hm & _).
      exists ctx. rewrite Hun. split; [done|]. exists fwd. split; [|done].
      observe. exact Hlast.
Qed.

(** *** Forward addresses *)

(** C2: the forward message constructed at hop [i] is addressed to
    [recipientKeys[0]] of the caller at hop 0 and to [routingKeys[i-1]] at
    every later hop; there is one forward message per routing key reached. *)
Theorem forward_address payload keys ek (w : World) :
  keys_at (heap w) keys ek ->
  let run := packMessage payload keys w in
  length (forwardsCreated (emitted run)) <= length (routingKeys ek) /\
  (is_fulfilled (outcome run) = true ->
   length (forwardsCreated (emitted run)) = length (routingKeys ek)) /\
  forall i fwd,
    forwardsCreated (emitted run) !! i = Some fwd ->
    to fwd = match i with
             | 0 => recipientKeys ek !! 0
             | S j => routingKeys ek !! j
             end.
Proof.
  intros Hkeys run. subst run. pack_cases payload Hkeys; rewrite Hemitted, Houtcome.
  - observe. split; [lia|]. split; [discriminate|]. intros i fwd Hi. discriminate.
  - pose proof (forwardTrace_forwardCount _ _ _ _ _ _ _ Hloop) as Hcount.
    destruct (forwardTrace_packCount _ _ _ _ _ _ _ Hloop) as [Hle Heq].
    pose proof (forwardTrace_addresses _ _ _ _ _ _ _ Hloop) as Haddr.
    observe. rewrite Hcount. done.
Qed.

(** *** Anonymity of the forward layers *)

(** C3: the first pack invocation receives [keys.senderKey]; every later one,
    one per routing key reached, receives no sender key. *)
Theorem forward_layers_anonymous payload keys ek (w : World) :
  keys_at (heap w) keys ek ->
  exists later,
    packSenders (emitted (packMessage payload keys w)) = senderKey ek :: later /\
    Forall (fun sender => sender = None) later.
Proof.
  intros Hkeys. pack_cases payload Hkeys; rewrite Hemitted.
  - exists []. rewrite nullish_None. split; [reflexivity | constructor].
  - exists (packSenders evs). rewrite nullish_None.
    pose proof (forwardTrace_senders _ _ _ _ _ _ _ Hloop). observe. done.
Qed.

(** *** Empty recipient keys *)

(** C4, as the code has it: with empty [recipientKeys] the service raises no
    error of its own; it invokes the wallet's pack with the empty recipient
    list first, and it rejects only with the error of a rejected pack
    invocation. *)
Theorem empty_recipients_reach_wallet payload keys ek (w : World) :
  keys_at (heap w) keys ek ->
  recipientKeys ek = [] ->
  let run := packMessage payload keys w in
  (exists later, packRecipients (emitted run) = [] :: later) /\
  (forall e, outcome run = Rejected e -> In e (packFailures (emitted run))).
Proof.
  intros Hkeys Hempty run. subst run. pack_cases payload Hkeys; rewrite Hemitted, Houtcome, Hempty.
  - split; [by exists []|]. intros e' [= <-]. by left.
  - split; [by exists (packRecipients evs)|]. intros e' ->.
    pose proof (forwardTrace_failures _ _ _ _ _ _ _ Hloop) as Hfail.
    observe. rewrite Hfail. by left.
Qed.

(** *** The no-routing round trip *)

(** C5: the wallet's unpack inverting its pack, a wire message returned by
    [packMessage] for non-empty recipient keys and no routing keys unpacks to
    the serialized payload, with the sender key that was given (absent when
    none was). *)
Theorem no_routing_round_trip payload keys ek (w : World) wireMessage :
  keys_at (heap w) keys ek ->
  recipientKeys ek <> [] ->
  routingKeys ek = [] ->
  unpack_inverts_pack wallet ->
  outcome (packMessage payload keys w) = Fulfilled wireMessage ->
  exists ctx,
    outcome (unpackMessage wireMessage (final (packMessage payload keys w)))
      = Fulfilled ctx /\
    ctx_message ctx = toJSON payload options /\
    ctx_senderKey ctx = senderKey ek.
Proof.
  intros Hkeys _ Hhops Hinv Hok. pack_cases payload Hkeys; [congruence|].
  rewrite Hok in Houtcome. subst o. rewrite Hhops in Hloop.
  injection Hloop as -> <- <-.
  destruct (Hinv _ _ _ _ _ _ Hpack) as (ctx & ws'' & Hun & Hm & Hs).
  exists ctx. rewrite unpackMessage_outcome, Hstate, Hun.
  rewrite nullish_None in Hs. done.
Qed.

(** *** Failures *)

(** C6: when a pack invocation rejects, at the innermost layer or at any
    forward layer, [packMessage] rejects with that error and returns no wire
    message. *)
Theorem pack_failure_propagates payload keys ek (w : World) e :
  keys_at (heap w) keys ek ->
  In e (packFailures (emitted (packMessage payload keys w))) ->
  outcome (packMessage payload keys w) = Rejected e.
Proof.
  intros Hkeys. pack_cases payload Hkeys; rewrite Hemitted, Houtcome.
  - intros [<-|[]]. reflexivity.
  - pose proof (forwardTrace_failures _ _ _ _ _ _ _ Hloop) as Hfail.
    observe. rewrite Hfail.
    destruct o; intros Hin; [destruct Hin|]. by destruct Hin as [<-|[]].
Qed.

(** C8, as the code has it: an error thrown by [packMessage] is the error of
    the one pack invocation that rejected, passed on as it is; that
    invocation is the last call the service made. *)
Theorem thrown_error_is_wallet_error payload keys ek (w : World) e :
  keys_at (heap w) keys ek ->
  outcome (packMessage payload keys w) = Rejected e ->
  let run := packMessage payload keys w in
  packFailures (emitted run) = [e] /\
  exists m r s, last (emitted run) = Some (PackCall m r s (Rejected e)).
Proof.
  intros Hkeys Hfail run. subst run. pack_cases payload Hkeys; rewrite Hemitted.
  - rewrite Hfail in Houtcome. injection Houtcome as <-. split; [reflexivity|].
    eauto.
  - rewrite Hfail in Houtcome. subst o.
    pose proof (forwardTrace_failures _ _ _ _ _ _ _ Hloop) as Hfailures.
    destruct (forwardTrace_last_call _ _ _ _ _ _ _ Hloop e eq_refl) as (m & r & s & Hlast).
    observe. split; [exact Hfailures|].
    exists m, r, s. destruct evs; [discriminate | exact Hlast].
Qed.

(** *** The legacy prefix flag *)

(** C7: every serialization, of the payload and of each forward message,
    receives the configuration's [useLegacyDidSovPrefix]; there is one
    serialization per pack invocation. *)
Theorem legacy_flag_threaded payload keys ek (w : World) :
  keys_at (heap w) keys ek ->
  let run := packMessage payload keys w in
  Forall (fun flag => flag = config_useLegacyDidSovPrefix config)
         (serializationFlags (emitted run)) /\
  length (serializationFlags (emitted run)) = packCount (emitted run).
Proof.
  intros Hkeys run. subst run. pack_cases payload Hkeys; rewrite Hemitted.
  - split; [|reflexivity]. by repeat constructor.
  - pose proof (forwardTrace_flags _ _ _ _ _ _ _ Hloop) as Hflags.
    pose proof (forwardTrace_flagCount _ _ _ _ _ _ _ Hloop) as Hcount.
    observe. split; [by constructor | by f_equal].
Qed.

(** *** The caller's keys *)

(** C9: after the call the caller's [keys] object holds the same fields, and
    the arrays its fields reference hold the same elements, as before. *)
Theorem caller_keys_unchanged payload keys r t s recipients hops (w : World) :
  heap w !! keys = Some (KeysCell r t s) ->
  heap w !! r = Some (ArrayCell recipients) ->
  heap w !! t = Some (ArrayCell hops) ->
  let after := heap (final (packMessage payload keys w)) in
  after !! keys = Some (KeysCell r t s) /\
  after !! r = Some (ArrayCell recipients) /\
  after !! t = Some (ArrayCell hops).
Proof.
  intros Hk Hr Ht after. subst after.
  assert (keys_at (heap w) keys
            {| recipientKeys := recipients; routingKeys := hops; senderKey := s |})
    as Hkeys by (exists r, t; done).
  repeat split; by apply (packMessage_extends _ _ _ _ _ _ Hkeys).
Qed.

(** *** The layers, one inside the other *)

Ltac observe_calls :=
  unfold packCalls in *; observe; cbn [app omap list_omap length].

Lemma forwardTrace_recipients hops : forall first wireMessage ws o ws' evs,
  forwardTrace hops first wireMessage ws = (o, ws', evs) ->
  packRecipients evs = (fun k => [k]) <$> take (length (forwardsCreated evs)) hops.
Proof.
  induction hops as [|routingKey rest IH]; intros first wireMessage ws o ws' evs H.
  - injection H as <- <- <-. reflexivity.
  - unfold packRecipients in *.
    trace_step H IH; cbn [app omap list_omap take fmap list_fmap];
      [f_equal; exact IH | reflexivity].
Qed.

(** Each forward message holds the wire message that was current when it was
    built, and is what the next pack call encrypts. *)
Lemma forwardTrace_layers hops : forall first wireMessage ws o ws' evs,
  forwardTrace hops first wireMessage ws = (o, ws', evs) ->
  forall i fwd,
    forwardsCreated evs !! i = Some fwd ->
    match i with
    | 0 => message fwd = wireMessage
    | S j => exists m, packCalls evs !! j = Some (m, Fulfilled (message fwd))
    end /\
    exists o', packCalls evs !! i = Some (ForwardMessage_toJSON fwd options, o').
Proof.
  induction hops as [|routingKey rest IH];
    intros first wireMessage ws o ws' evs H i fwd Hi.
  - injection H as <- <- <-. discriminate.
  - unfold forwardsCreated, packCalls in *. trace_step H IH.
    + cbn [app omap list_omap] in *. destruct i as [|i]; cbn in Hi.
      * injection Hi as <-. split; [reflexivity|]. eauto.
      * destruct (IH _ _ Hi) as [Hinner Hnext]. split; [|exact Hnext].
        destruct i as [|i]; [|exact Hinner].
        cbn in Hinner. rewrite Hinner. eauto.
    + cbn [app omap list_omap] in *. destruct i as [|i]; cbn in Hi; [|discriminate].
      injection Hi as <-. split; [reflexivity|]. eauto.
Qed.

(** The loop's outcome is the answer of its last pack call. *)
Lemma forwardTrace_result hops : forall first wireMessage ws o ws' evs,
  forwardTrace hops first wireMessage ws = (o, ws', evs) ->
  match last (packCalls evs) with
  | Some (_, answer) => o = answer
  | None => o = Fulfilled wireMessage
  end.
Proof.
  induction hops as [|routingKey rest IH]; intros first wireMessage ws o ws' evs H.
  - injection H as <- <- <-. reflexivity.
  - unfold packCalls in *. trace_step H IH; cbn [app omap list_omap] in *.
    + destruct (omap _ evs1) as [|c cs]; [exact IH|].
      change (last (_ :: c :: cs)) with (last (c :: cs)).
      destruct (last (c :: cs)) as [[m answer]|] eqn:Hlast; [exact IH|].
      by apply last_None in Hlast.
    + reflexivity.
Qed.

(** Each forward message but the first holds the answer of the pack call made
    on the forward message before it. *)
Lemma forwardTrace_sealed hops : forall first wireMessage ws o ws' evs,
  forwardTrace hops first wireMessage ws = (o, ws', evs) ->
  forall i fwd,
    forwardsCreated evs !! i = Some fwd ->
    match i with
    | 0 => message fwd = wireMessage
    | S j =>
        exists inner routingKey ws0 ws1,
          forwardsCreated evs !! j = Some inner /\
          pack (ForwardMessage_toJSON inner options) [routingKey] None ws0
            = (Fulfilled (message fwd), ws1)
    end.
Proof.
  induction hops as [|routingKey rest IH];
    intros first wireMessage ws o ws' evs H i fwd Hi.
  - injection H as <- <- <-. discriminate.
  - unfold forwardsCreated in *. trace_step H IH.
    + cbn [app omap list_omap] in *. destruct i as [|i]; cbn in Hi.
      * injection Hi as <-. reflexivity.
      * specialize (IH _ _ Hi). destruct i as [|i].
        -- cbn in IH. rewrite IH. eexists _, _, _, _. split; [reflexivity | exact Hpack].
        -- destruct IH as (inner & rk & ws0 & ws3 & Hinner & Hsealed).
           exists inner, rk, ws0, ws3. split; [exact Hinner | exact Hsealed].
    + cbn [app omap list_omap] in *. destruct i as [|i]; cbn in Hi; [|discriminate].
      injection Hi as <-. reflexivity.
Qed.

(** X1: the innermost pack invocation is addressed to the caller's whole
    [recipientKeys]; the invocation of each hop reached is addressed to that
    hop's routing key alone, in array order; a call that fulfils has
    addressed every routing key. *)
Theorem pack_recipients payload keys ek (w : World) :
  keys_at (heap w) keys ek ->
  let run := packMessage payload keys w in
  packRecipients (emitted run)
    = recipientKeys ek
        :: ((fun k => [k]) <$> take (length (forwardsCreated (emitted run))) (routingKeys ek)) /\
  (is_fulfilled (outcome run) = true ->
   packRecipients (emitted run) = recipientKeys ek :: ((fun k => [k]) <$> routingKeys ek)).
Proof.
  intros Hkeys run. subst run. pack_cases payload Hkeys; rewrite Hemitted, Houtcome.
  - split; [reflexivity | discriminate].
  - pose proof (forwardTrace_recipients _ _ _ _ _ _ _ Hloop) as Hrecipients.
    pose proof (forwardTrace_forwardCount _ _ _ _ _ _ _ Hloop) as Hcount.
    destruct (forwardTrace_packCount _ _ _ _ _ _ _ Hloop) as [_ Hall].
    observe. split; [by rewrite Hrecipients|].
    intros Hok. rewrite Hrecipients, Hcount, (Hall Hok). by rewrite firstn_all.
Qed.

(** X2: the first pack invocation encrypts the serialized payload; every
    forward message holds the wire message the pack invocation before it
    returned, and is what the next pack invocation encrypts; the outcome of
    the call is the answer of the last pack invocation. *)
Theorem layers_nest payload keys ek (w : World) :
  keys_at (heap w) keys ek ->
  let run := packMessage payload keys w in
  let calls := packCalls (emitted run) in
  (exists answer, calls !! 0 = Some (toJSON payload options, answer)) /\
  (forall i fwd,
      forwardsCreated (emitted run) !! i = Some fwd ->
      (exists m, calls !! i = Some (m, Fulfilled (message fwd))) /\
      (exists answer, calls !! S i = Some (ForwardMessage_toJSON fwd options, answer))) /\
  (exists m, last calls = Some (m, outcome run)).
Proof.
  intros Hkeys run calls. subst run calls.
  pack_cases payload Hkeys; rewrite Hemitted, Houtcome.
  - observe_calls. split; [eauto|]. split; [|eauto]. intros i fwd Hi. discriminate.
  - pose proof (forwardTrace_layers _ _ _ _ _ _ _ Hloop) as Hlayers.
    pose proof (forwardTrace_result _ _ _ _ _ _ _ Hloop) as Hresult.
    observe_calls. split; [eauto|]. split.
    + intros i fwd Hi. destruct (Hlayers _ _ Hi) as [Hinner Hnext].
      split; [|exact Hnext]. destruct i as [|i]; [|exact Hinner].
      rewrite Hinner. cbn. eauto.
    + match goal with |- context [last (_ :: ?l)] => destruct l as [|c cs] end.
      * cbn in *. rewrite Hresult. eauto.
      * change (last (_ :: c :: cs)) with (last (c :: cs)).
        destruct (last (c :: cs)) as [[m answer]|] eqn:Hlast.
        -- rewrite Hresult. eauto.
        -- by apply last_None in Hlast.
Qed.

(** X3: when decryption inverts encryption whatever the wallet's state, the
    layers peel one by one: the wire message inside the first forward
    message unpacks to the serialized payload with the caller's sender key,
    and the wire message inside every later forward message unpacks, without
    a sender key, to the forward message before it. *)
Theorem layers_unwrap payload keys ek (w : World) :
  keys_at (heap w) keys ek ->
  unpack_inverts_pack_anywhere wallet ->
  let run := packMessage payload keys w in
  forall i fwd,
    forwardsCreated (emitted run) !! i = Some fwd ->
    forall w0 : World,
    exists ctx,
      outcome (unpackMessage (message fwd) w0) = Fulfilled ctx /\
      match i with
      | 0 => ctx_message ctx = toJSON payload options /\
             ctx_senderKey ctx = senderKey ek
      | S j =>
          exists inner,
            forwardsCreated (emitted run) !! j = Some inner /\
            ctx_message ctx = ForwardMessage_toJSON inner options /\
            ctx_senderKey ctx = None
      end.
Proof.
  intros Hkeys Hinv run. subst run.
  pack_cases payload Hkeys; rewrite Hemitted; intros i fwd Hi w0.
  - discriminate.
  - pose proof (forwardTrace_sealed _ _ _ _ _ _ _ Hloop) as Hsealed.
    observe. specialize (Hsealed _ _ Hi). rewrite unpackMessage_outcome.
    destruct i as [|i].
    + rewrite Hsealed.
      destruct (Hinv _ _ _ _ _ _ Hpack (walletState w0)) as (ctx & ws3 & Hun & Hm & Hs).
      exists ctx. rewrite Hun. rewrite nullish_None in Hs. done.
    + destruct Hsealed as (inner' & rk & ws0 & ws3 & Hinner & Hp).
      destruct (Hinv _ _ _ _ _ _ Hp (walletState w0)) as (ctx & ws4 & Hun & Hm & Hs).
      exists ctx. rewrite Hun. split; [done|]. exists inner'. done.
Qed.

(** X14: with no recipient key but a routing key, once the wallet has
    answered the innermost pack invocation the service builds a forward
    message that has no [to] at all around that answer. *)
Theorem unaddressed_forward payload keys ek (w : World) routingKey rest inner ws1 :
  keys_at (heap w) keys ek ->
  recipientKeys ek = [] ->
  routingKeys ek = routingKey :: rest ->
  pack (toJSON payload options) [] (senderKey ek) (walletState w) = (Fulfilled inner, ws1) ->
  exists later,
    forwardsCreated (emitted (packMessage payload keys w))
      = {| to := None; message := inner |} :: later.
Proof.
  intros Hkeys Hempty Hhops Hinner.
  pack_cases payload Hkeys; rewrite Hemitted;
    rewrite nullish_None, Hempty in Hpack; rewrite Hinner in Hpack; [discriminate|].
  injection Hpack as <- <-.
  rewrite Hhops, Hempty in Hloop. cbn [Observations.forwardTrace] in Hloop. cbv zeta in Hloop.
  change (([] : list Key) !! 0) with (@None Key) in Hloop.
  clear Hinner.
  destruct (pack _ _ _ _) as [[wireMessage'|e'] ws2].
  - destruct (Observations.forwardTrace _ _ _ _ _ _ _) as [[o1 ws3] evs1].
    injection Hloop as <- <- <-. observe. eauto.
  - injection Hloop as <- <- <-. observe. eauto.
Qed.

End EnvelopeFacts.
End EnvelopeFacts.

(** ** IndyIssuerService.createCredential *)

Module IssuerFacts.
Import Issuer.
Section IssuerFacts.
Context {CredOffer CredReq CredValues Cred Env : Type}.
Context (collaborators : Collaborators CredOffer CredReq CredValues Cred Env).

Local Abbreviation createCredential := (createCredential collaborators).
Local Abbreviation createTailsReader := (createTailsReader collaborators).
Local Abbreviation Event := (Issuer.Event CredOffer CredReq CredValues Cred).

(** Opening the tails reader never reaches [indy.issuerCreateCredential]. *)
Lemma createTailsReader_calls path env :
  issuerCalls (emitted (createTailsReader path env)) = [].
Proof.
  unfold Issuer.createTailsReader, tryCatch, bind, call, rethrow, throw, prepend.
  destruct (fileSystem_exists path env) as [[[|]|e] env1]; cbn.
  - destruct (indy_openBlobStorageReader _ _ env1) as [[h|e] env2]; cbn; [done|].
    by destruct (isIndyError e).
  - by destruct (isIndyError _).
  - by destruct (isIndyError e).
Qed.

(** C10, as the code has it: when [revocationRegistryId] or [tailsFilePath]
    is truthy (given and not the empty string) the call rejects and
    [indy.issuerCreateCredential] is never invoked.  With a truthy
    [tailsFilePath] the tails reader is created first and the calls of the
    run are those of creating it: when that rejects, its error is what the
    call throws (wrapped in [IndySdkError] when it is an indy error), and
    when it fulfils the call throws "Revocation not supported yet".  With a
    falsy [tailsFilePath] the call throws "Revocation not supported yet"
    without calling anything.
    [indy.issuerCreateCredential] is invoked only when both are falsy, with
    tails reader handle 0, and it is invoked then whenever the wallet handle
    can be read. *)
Theorem revocation_guard options env :
  (forall message, isIndyError (AriesFrameworkError message) = false) ->
  let run := createCredential options env in
  let rev := revocationRegistryId options in
  let tails := tailsFilePath options in
  let reader := createTailsReader (default EmptyString tails) env in
  (truthy rev || truthy tails = true ->
   issuerCalls (emitted run) = [] /\
   (truthy tails = false ->
    emitted run = [] /\
    outcome run = Rejected (AriesFrameworkError "Revocation not supported yet")) /\
   (truthy tails = true ->
    emitted run = emitted reader /\
    final run = final reader /\
    outcome run =
      match outcome reader with
      | Fulfilled _ => Rejected (AriesFrameworkError "Revocation not supported yet")
      | Rejected e => Rejected (if isIndyError e then IndySdkError e else e)
      end)) /\
  (forall call, In call (issuerCalls (emitted run)) ->
     truthy rev = false /\ truthy tails = false /\ call = (nullish rev None, 0%Z)) /\
  (truthy rev || truthy tails = false ->
   is_fulfilled (wallet_handle env) = true ->
   issuerCalls (emitted run) = [(nullish rev None, 0%Z)]).
Proof.
  intros Hguard run rev tails reader. subst run rev tails reader.
  unfold Issuer.createCredential.
  destruct (truthy (tailsFilePath options)) eqn:Htails.
  - (* the tails reader is opened first *)
    rewrite orb_true_r.
    pose proof (createTailsReader_calls (default EmptyString (tailsFilePath options)) env)
      as Hcalls.
    unfold tryCatch, bind, prepend, rethrow, throw.
    destruct (Issuer.createTailsReader _ _ env) as [[h|e] env1 evs1];
      cbn [outcome final emitted] in *.
    + rewrite Hguard; cbn [outcome final emitted]. rewrite !app_nil_r, Hcalls.
      split; [|split; [by intros call []|discriminate]].
      intros _. split; [done|]. split; [discriminate|]. done.
    + destruct (isIndyError e) eqn:Hindy; cbn [outcome final emitted];
        rewrite !app_nil_r, Hcalls.
      * split; [|split; [by intros call []|discriminate]].
        intros _. split; [done|]. split; [discriminate|]. done.
      * split; [|split; [by intros call []|discriminate]].
        intros _. split; [done|]. split; [discriminate|]. done.
  - rewrite orb_false_r.
    destruct (truthy (revocationRegistryId options)) eqn:Hrev.
    + unfold tryCatch, bind, prepend, rethrow, throw, ret; cbn.
      rewrite Hguard; cbn.
      split; [|split; [by intros call []|discriminate]].
      intros _. split; [done|]. split; [done|discriminate].
    + unfold tryCatch, bind, prepend, rethrow, throw, ret, call; cbn.
      split; [discriminate|].
      destruct (wallet_handle env) as [handle|e]; cbn.
      * destruct (indy_issuerCreateCredential _ _ _ _ _ _ env) as [[[cred revocId]|e] env1]; cbn.
        -- split; [|done]. intros call [<-|[]]. done.
        -- destruct (isIndyError e); cbn; (split; [|done]); intros call [<-|[]]; done.
      * destruct (isIndyError e); cbn; (split; [|discriminate]); by intros call [].
Qed.

(** *** The tails reader *)

Local Abbreviation translated := (translated collaborators).

(** X4: [createTailsReader] asks the file system about the tails file once,
    and opens the blob storage reader, of type "default" and in the
    directory of the file, only after the file system answered that the
    file exists. *)
Theorem reader_needs_existing_file path env :
  let run := createTailsReader path env in
  existsCalls (emitted run) = [path] /\
  readerCalls (emitted run) =
    match (fileSystem_exists path env).1 with
    | Fulfilled true => [("default", {| base_dir := getDirFromFilePath path |})]
    | _ => []
    end.
Proof.
  unfold Issuer.createTailsReader, tryCatch, bind, call, rethrow, throw, prepend.
  destruct (fileSystem_exists path env) as [[[|]|e] env1]; cbn.
  - destruct (indy_openBlobStorageReader _ _ env1) as [[h|e] env2]; cbn; [done|].
    by destruct (isIndyError e).
  - by destruct (isIndyError _).
  - by destruct (isIndyError e).
Qed.

(** X5: when the file system answers that the tails file does not exist,
    [createTailsReader] throws "Tails file does not exist at path" followed
    by the path. *)
Theorem missing_tails_file path env :
  (fileSystem_exists path env).1 = Fulfilled false ->
  (forall message, isIndyError (AriesFrameworkError message) = false) ->
  outcome (createTailsReader path env)
    = Rejected (AriesFrameworkError ("Tails file does not exist at path " +:+ path)).
Proof.
  intros Hexists Hguard.
  unfold Issuer.createTailsReader, tryCatch, bind, call, rethrow, throw, prepend.
  destruct (fileSystem_exists path env) as [answer env1]. cbn in Hexists. subst answer.
  cbn. by rewrite Hguard.
Qed.

(** X6: with a truthy [tailsFilePath] whose file exists, [createCredential]
    opens the tails reader and only then refuses: the call throws "Revocation
    not supported yet" after the reader was opened, and the handle goes
    nowhere. *)
Theorem tails_reader_opened_then_refused options env path env1 handle env2 :
  tailsFilePath options = Some path ->
  path <> EmptyString ->
  fileSystem_exists path env = (Fulfilled true, env1) ->
  indy_openBlobStorageReader "default" {| base_dir := getDirFromFilePath path |} env1
    = (Fulfilled handle, env2) ->
  (forall message, isIndyError (AriesFrameworkError message) = false) ->
  createCredential options env =
    MkRun (Rejected (AriesFrameworkError "Revocation not supported yet")) env2
          [ExistsCall path (Fulfilled true);
           OpenBlobStorageReaderCall "default" {| base_dir := getDirFromFilePath path |}
             (Fulfilled handle)].
Proof.
  intros Hpath Hne Hexists Hopen Hguard.
  assert (truthy (Some path) = true) as Htruthy.
  { cbn. destruct (String.eqb_spec path EmptyString); [contradiction | reflexivity]. }
  unfold Issuer.createCredential. rewrite Hpath, Htruthy, orb_true_r.
  change (default EmptyString (Some path)) with path.
  unfold Issuer.createTailsReader, tryCatch, bind, call, rethrow, throw, prepend.
  rewrite Hexists. cbn. rewrite Hopen. cbn. rewrite Hguard. reflexivity.
Qed.

(** X7: without revocation (both fields falsy) [createCredential] leaves the
    file system and the blob storage alone, and its outcome is that of
    [indy.issuerCreateCredential]: the credential and revocation id it
    answered, or its error, wrapped in [IndySdkError] when it is an indy
    error; an error of reading the wallet handle is thrown the same way. *)
Theorem createCredential_without_revocation options env :
  truthy (revocationRegistryId options) = false ->
  truthy (tailsFilePath options) = false ->
  let run := createCredential options env in
  existsCalls (emitted run) = [] /\
  readerCalls (emitted run) = [] /\
  outcome run =
    match wallet_handle env with
    | Fulfilled handle =>
        match (indy_issuerCreateCredential handle (credentialOffer options)
                 (credentialRequest options) (credentialValues options)
                 (nullish (revocationRegistryId options) None) 0%Z env).1 with
        | Fulfilled created => Fulfilled created
        | Rejected e => Rejected (translated e)
        end
    | Rejected e => Rejected (translated e)
    end.
Proof.
  intros Hrev Htails run. subst run.
  unfold Issuer.createCredential. rewrite Hrev, Htails.
  unfold tryCatch, bind, prepend, rethrow, throw, ret, call, Issuer.translated; cbn.
  destruct (wallet_handle env) as [handle|e]; cbn.
  - destruct (indy_issuerCreateCredential _ _ _ _ _ _ env) as [[[cred revocId]|e] env1]; cbn.
    + done.
    + by destruct (isIndyError e).
  - by destruct (isIndyError e).
Qed.

(** X8: an error of [indy.openBlobStorageReader] passes two [catch] blocks on
    its way out of [createCredential]; an [IndySdkError] not being an indy
    error itself, it arrives wrapped once when it is an indy error and
    unchanged otherwise. *)
Theorem reader_error_wrapped_once options env path env1 e env2 :
  tailsFilePath options = Some path ->
  path <> EmptyString ->
  fileSystem_exists path env = (Fulfilled true, env1) ->
  indy_openBlobStorageReader "default" {| base_dir := getDirFromFilePath path |} env1
    = (Rejected e, env2) ->
  isIndyError (IndySdkError e) = false ->
  outcome (createCredential options env) = Rejected (translated e).
Proof.
  intros Hpath Hne Hexists Hopen Hguard.
  assert (truthy (Some path) = true) as Htruthy.
  { cbn. destruct (String.eqb_spec path EmptyString); [contradiction | reflexivity]. }
  unfold Issuer.createCredential. rewrite Hpath, Htruthy, orb_true_r.
  change (default EmptyString (Some path)) with path.
  unfold Issuer.createTailsReader, tryCatch, bind, call, rethrow, throw, prepend,
    Issuer.translated.
  rewrite Hexists. cbn. rewrite Hopen. cbn.
  destruct (isIndyError e) eqn:Hindy; cbn.
  - by rewrite Hguard.
  - by rewrite Hindy.
Qed.

End IssuerFacts.
End IssuerFacts.

(** ** IndyIssuerService: schemas, credential definitions and offers *)

Module IssuerDefinitionsFacts.
Import IssuerDefinitions.
Section IssuerDefinitionsFacts.
Context {Schema CredDef CredOffer Env : Type}.
Context (collaborators : Collaborators Schema CredDef CredOffer Env).

Local Abbreviation createSchema := (createSchema collaborators).
Local Abbreviation createCredentialDefinition := (createCredentialDefinition collaborators).
Local Abbreviation createCredentialOffer := (createCredentialOffer collaborators).
Local Abbreviation translated := (translated collaborators).

(** X9: [createSchema] makes one call, to [indy.issuerCreateSchema] with the
    four fields in order, without reading the wallet handle; it returns the
    schema of the answered pair, or throws indy's error, wrapped in
    [IndySdkError] when it is an indy error. *)
Theorem createSchema_outcome options env :
  let answer := indy_issuerCreateSchema (originDid options) (name options)
                  (version options) (attributes options) env in
  let run := createSchema options env in
  emitted run = [CreateSchemaCall (originDid options) (name options) (version options)
                   (attributes options) answer.1] /\
  outcome run = match answer.1 with
                | Fulfilled created => Fulfilled created.2
                | Rejected e => Rejected (translated e)
                end.
Proof.
  unfold IssuerDefinitions.createSchema, tryCatch, bind, prepend, rethrow, throw, ret,
    call, IssuerDefinitions.translated; cbn.
  destruct (indy_issuerCreateSchema _ _ _ _ env) as [[[id schema]|e] env1]; cbn; [done|].
  by destruct (isIndyError e).
Qed.

(** X10: [createCredentialDefinition] passes tag "default", signature type CL
    and [support_revocation: false] for the options that are absent, and
    every given option as it is, an empty tag included. *)
Theorem credential_definition_defaults options env handle :
  wallet_handle env = Fulfilled handle ->
  credDefCalls (emitted (createCredentialDefinition options env)) =
    [(match tag options with Some given => given | None => "default" end,
      CL,
      {| support_revocation :=
           match supportRevocation options with Some given => given | None => false end |})].
Proof.
  intros Hhandle.
  unfold IssuerDefinitions.createCredentialDefinition, readHandle, tryCatch, bind, prepend,
    rethrow, throw, ret, call; cbn.
  rewrite Hhandle; cbn.
  destruct (indy_issuerCreateAndStoreCredentialDef _ _ _ _ _ _ env) as [[[id def]|e] env1];
    cbn; destruct (tag options), (signatureType options) as [[]|], (supportRevocation options);
    cbn; try done; by destruct (isIndyError e).
Qed.

(** X11: when the wallet handle cannot be read, [createCredentialDefinition]
    and [createCredentialOffer] make no call to indy and throw the error of
    the wallet, wrapped in [IndySdkError] when it is an indy error. *)
Theorem closed_wallet_stops_issuer options credentialDefinitionId env e :
  wallet_handle env = Rejected e ->
  createCredentialDefinition options env
    = MkRun (Rejected (translated e)) env [HandleRead (Rejected e)] /\
  createCredentialOffer credentialDefinitionId env
    = MkRun (Rejected (translated e)) env [HandleRead (Rejected e)].
Proof.
  intros Hhandle.
  unfold IssuerDefinitions.createCredentialDefinition, IssuerDefinitions.createCredentialOffer,
    readHandle, tryCatch, bind, prepend, rethrow, throw, ret, call,
    IssuerDefinitions.translated; cbn.
  rewrite Hhandle; cbn. by destruct (isIndyError e).
Qed.

(** X12: with a readable wallet handle [createCredentialOffer] makes one call
    to [indy.issuerCreateCredentialOffer], for that handle and the given
    credential definition id, and its outcome is indy's: the offer, or the
    error, wrapped in [IndySdkError] when it is an indy error. *)
Theorem createCredentialOffer_outcome credentialDefinitionId env handle :
  wallet_handle env = Fulfilled handle ->
  let answer := indy_issuerCreateCredentialOffer handle credentialDefinitionId env in
  let run := createCredentialOffer credentialDefinitionId env in
  indyCalls (emitted run)
    = [CreateCredentialOfferCall handle credentialDefinitionId answer.1] /\
  outcome run = match answer.1 with
                | Fulfilled offer => Fulfilled offer
                | Rejected e => Rejected (translated e)
                end.
Proof.
  intros Hhandle.
  unfold IssuerDefinitions.createCredentialOffer, readHandle, tryCatch, bind, prepend,
    rethrow, throw, ret, call, IssuerDefinitions.translated; cbn.
  rewrite Hhandle; cbn.
  destruct (indy_issuerCreateCredentialOffer _ _ env) as [[offer|e] env1]; cbn; [done|].
  by destruct (isIndyError e).
Qed.

End IssuerDefinitionsFacts.
End IssuerDefinitionsFacts.

(** ** IndyVerifierService.verifyProof *)

Module VerifierFacts.
Import Verifier.
Section VerifierFacts.
Context {ProofRequest Proof Schemas CredentialDefs RevRegDef RevState Env : Type}.
Context (collaborators :
           Collaborators ProofRequest Proof Schemas CredentialDefs RevRegDef RevState Env).

Local Abbreviation verifyProof := (verifyProof collaborators).
Local Abbreviation translated := (translated collaborators).

(** X13: [verifyProof] makes one call to [indy.verifierVerifyProof], with the
    empty object for revocation data that are absent; its verdict is the
    verdict indy answered, and an error of indy is never turned into a
    verdict: it is thrown, wrapped in [IndySdkError] when it is an indy
    error. *)
Theorem verifyProof_verdict options env :
  let definitions := default ∅ (revocationRegistryDefinitions options) in
  let states := default ∅ (revocationStates options) in
  let answer := indy_verifierVerifyProof (proofRequest options) (proof options)
                  (schemas options) (credentialDefinitions options)
                  definitions states env in
  let run := verifyProof options env in
  emitted run = [VerifierVerifyProofCall (proofRequest options) (proof options)
                   (schemas options) (credentialDefinitions options)
                   definitions states answer.1] /\
  (forall verdict, outcome run = Fulfilled verdict <-> answer.1 = Fulfilled verdict) /\
  (forall e, answer.1 = Rejected e -> outcome run = Rejected (translated e)).
Proof.
  unfold Verifier.verifyProof, tryCatch, bind, prepend, rethrow, throw, ret, call,
    Verifier.translated; cbn.
  destruct (indy_verifierVerifyProof _ _ _ _ _ _ env) as [[verdict|e] env1]; cbn.
  - split; [done|]. split; [done|]. intros e He. discriminate.
  - destruct (isIndyError e) eqn:Hindy; cbn; (split; [done|]);
      (split; [intros verdict; split; discriminate|]);
      intros e' [= <-]; by rewrite ?Hindy.
Qed.

End VerifierFacts.
End VerifierFacts.

(** ** The services on concrete inputs *)

Module Scenarios.
Import Envelope Observations Fixture.

Lemma keys_at_storeOf ek : keys_at (storeOf ek) 0 ek.
Proof.
  exists 1, 2. unfold storeOf. split; [|split].
  - apply lookup_insert_eq.
  - rewrite lookup_insert_ne by done. apply lookup_insert_eq.
  - do 2 (rewrite lookup_insert_ne by done). apply lookup_insert_eq.
Qed.

Lemma standIn_inverts unknown : unpack_inverts_pack (standInWallet unknown).
Proof.
  intros m R sender ws wire ws'. cbn.
  destruct (existsb _ R); [discriminate|].
  intros [= <- <-]. eexists _, _. split; [reflexivity|]. done.
Qed.

(** Scenario A: no routing, no sender. *)
Example scenarioA_round_trip :
  let run := pack_with [] currentConfig scenarioA in
  outcome (unpackMessage (standInWallet []) (wireOf run) (final run))
    = Fulfilled {| ctx_message := toJSON ping (legacyOption currentConfig);
                   ctx_senderKey := None;
                   ctx_recipientKey := Some "R1" |}.
Proof. vm_compute. reflexivity. Qed.

(** Scenario B: one mediator; the outer layer holds a forward message to R1
    around the inner wire message, which holds the payload. *)
Example scenarioB_layers :
  let run := pack_with [] currentConfig scenarioB in
  let inner := DSealed (toJSON ping (legacyOption currentConfig)) ["R1"] (Some "S1") in
  wireOf run
    = DSealed (forwardDoc {| to := Some "R1"; message := inner |}
                          (legacyOption currentConfig))
              ["M1"] None.
Proof. vm_compute. reflexivity. Qed.

Lemma packMessage_hop_count_witness :
  keys_at (heap (worldOf scenarioC)) 0 scenarioC /\
  unpack_inverts_pack (standInWallet []) /\
  outcome (pack_with [] currentConfig scenarioC)
    = Fulfilled (wireOf (pack_with [] currentConfig scenarioC)) /\
  let run := pack_with [] currentConfig scenarioC in
  packCount (emitted run) = 2 + 1 /\
  exists ctx,
    outcome (unpackMessage (standInWallet []) (wireOf run) (final run)) = Fulfilled ctx /\
    exists fwd,
      last (forwardsCreated (emitted run)) = Some fwd /\
      ctx_message ctx = forwardDoc fwd (legacyOption currentConfig).
Proof.
  split; [apply keys_at_storeOf|]. split; [apply standIn_inverts|].
  split; [vm_compute; reflexivity|].
  apply (EnvelopeFacts.packMessage_hop_count (standInWallet []) currentConfig forwardDoc
           typeOfDoc ping 0 scenarioC (worldOf scenarioC)).
  - apply keys_at_storeOf.
  - apply standIn_inverts.
  - vm_compute; reflexivity.
Defined.

Lemma forward_address_witness :
  keys_at (heap (worldOf scenarioC)) 0 scenarioC /\
  let run := pack_with [] currentConfig scenarioC in
  length (forwardsCreated (emitted run)) <= 2 /\
  (is_fulfilled (outcome run) = true -> length (forwardsCreated (emitted run)) = 2) /\
  forall i fwd,
    forwardsCreated (emitted run) !! i = Some fwd ->
    to fwd = match i with
             | 0 => Some "R1"
             | S j => ["M1"; "M2"] !! j
             end.
Proof.
  split; [apply keys_at_storeOf|].
  apply (EnvelopeFacts.forward_address (standInWallet []) currentConfig forwardDoc
           typeOfDoc ping 0 scenarioC (worldOf scenarioC)).
  apply keys_at_storeOf.
Defined.

Lemma forward_layers_anonymous_witness :
  keys_at (heap (worldOf scenarioB)) 0 scenarioB /\
  exists later,
    packSenders (emitted (pack_with [] currentConfig scenarioB)) = Some "S1" :: later /\
    Forall (fun sender => sender = None) later.
Proof.
  split; [apply keys_at_storeOf|].
  apply (EnvelopeFacts.forward_layers_anonymous (standInWallet []) currentConfig forwardDoc
           typeOfDoc ping 0 scenarioB (worldOf scenarioB)).
  apply keys_at_storeOf.
Defined.

(** C4 on the code (scenario D): with no recipient key the service goes to the
    wallet, which is invoked with the empty list, and returns what the
    wallet answered; nothing fails before the invocation. *)
Lemma empty_recipients_are_packed :
  let run := pack_with [] currentConfig scenarioD in
  outcome run = Fulfilled (DSealed (toJSON ping (legacyOption currentConfig)) [] None) /\
  packRecipients (emitted run) = [[]] /\
  ~ (exists message, outcome run = Rejected (AriesFrameworkError message)) /\
  packCount (emitted run) <> 0.
Proof.
  vm_compute. split; [reflexivity|]. split; [reflexivity|].
  split; [intros [message Hm]; discriminate | discriminate].
Qed.

Lemma empty_recipients_reach_wallet_witness :
  keys_at (heap (worldOf scenarioD)) 0 scenarioD /\
  recipientKeys scenarioD = [] /\
  let run := pack_with ["M1"] currentConfig scenarioD in
  (exists later, packRecipients (emitted run) = [] :: later) /\
  (forall e, outcome run = Rejected e -> In e (packFailures (emitted run))).
Proof.
  split; [apply keys_at_storeOf|]. split; [reflexivity|].
  apply (EnvelopeFacts.empty_recipients_reach_wallet (standInWallet ["M1"]) currentConfig
           forwardDoc typeOfDoc ping 0 scenarioD (worldOf scenarioD)).
  - apply keys_at_storeOf.
  - reflexivity.
Defined.

Lemma no_routing_round_trip_witness :
  keys_at (heap (worldOf scenarioE)) 0 scenarioE /\
  recipientKeys scenarioE <> [] /\
  routingKeys scenarioE = [] /\
  unpack_inverts_pack (standInWallet []) /\
  outcome (pack_with [] legacyConfig scenarioE)
    = Fulfilled (wireOf (pack_with [] legacyConfig scenarioE)) /\
  let run := pack_with [] legacyConfig scenarioE in
  exists ctx,
    outcome (unpackMessage (standInWallet []) (wireOf run) (final run)) = Fulfilled ctx /\
    ctx_message ctx = toJSON ping (legacyOption legacyConfig) /\
    ctx_senderKey ctx = Some "S1".
Proof.
  split; [apply keys_at_storeOf|]. split; [discriminate|]. split; [reflexivity|].
  split; [apply standIn_inverts|]. split; [vm_compute; reflexivity|].
  apply (EnvelopeFacts.no_routing_round_trip (standInWallet []) legacyConfig forwardDoc
           typeOfDoc ping 0 scenarioE (worldOf scenarioE)).
  - apply keys_at_storeOf.
  - discriminate.
  - reflexivity.
  - apply standIn_inverts.
  - vm_compute; reflexivity.
Defined.

Lemma pack_failure_propagates_witness :
  keys_at (heap (worldOf scenarioC)) 0 scenarioC /\
  In notFound (packFailures (emitted (pack_with ["M2"] currentConfig scenarioC))) /\
  outcome (pack_with ["M2"] currentConfig scenarioC) = Rejected notFound.
Proof.
  split; [apply keys_at_storeOf|]. split; [vm_compute; left; reflexivity|].
  apply (EnvelopeFacts.pack_failure_propagates (standInWallet ["M2"]) currentConfig
           forwardDoc typeOfDoc ping 0 scenarioC (worldOf scenarioC)).
  - apply keys_at_storeOf.
  - vm_compute; left; reflexivity.
Defined.

Lemma legacy_flag_threaded_witness :
  keys_at (heap (worldOf scenarioC)) 0 scenarioC /\
  let run := pack_with [] legacyConfig scenarioC in
  Forall (fun flag => flag = true) (serializationFlags (emitted run)) /\
  length (serializationFlags (emitted run)) = packCount (emitted run).
Proof.
  split; [apply keys_at_storeOf|].
  apply (EnvelopeFacts.legacy_flag_threaded (standInWallet []) legacyConfig forwardDoc
           typeOfDoc ping 0 scenarioC (worldOf scenarioC)).
  apply keys_at_storeOf.
Defined.

(** C8 on the code: two runs against a wallet that knows neither M1 nor M2: the first fails
    at hop 0 on key M1, the second at hop 1 on key M2, and both throw the
    same error, from which neither the hop nor the key can be told. *)
Lemma thrown_error_tells_no_hop :
  let run1 := pack_with ["M1"; "M2"] currentConfig
                {| recipientKeys := ["R1"]; routingKeys := ["M1"; "M3"]; senderKey := None |} in
  let run2 := pack_with ["M1"; "M2"] currentConfig
                {| recipientKeys := ["R1"]; routingKeys := ["M3"; "M2"]; senderKey := None |} in
  packRecipients (emitted run1) = [["R1"]; ["M1"]] /\
  packRecipients (emitted run2) = [["R1"]; ["M3"]; ["M2"]] /\
  outcome run1 = Rejected notFound /\
  outcome run2 = Rejected notFound /\
  ~ (exists identify : JsError -> nat * Key,
        (forall e, outcome run1 = Rejected e -> identify e = (0, "M1")) /\
        (forall e, outcome run2 = Rejected e -> identify e = (1, "M2"))).
Proof.
  intros run1 run2.
  assert (outcome run1 = Rejected notFound) as H1 by (vm_compute; reflexivity).
  assert (outcome run2 = Rejected notFound) as H2 by (vm_compute; reflexivity).
  split; [vm_compute; reflexivity|]. split; [vm_compute; reflexivity|].
  split; [exact H1|]. split; [exact H2|].
  intros (identify & Hhop0 & Hhop1).
  specialize (Hhop0 _ H1). specialize (Hhop1 _ H2). congruence.
Qed.

Lemma thrown_error_is_wallet_error_witness :
  keys_at (heap (worldOf scenarioC)) 0 scenarioC /\
  outcome (pack_with ["M2"] currentConfig scenarioC) = Rejected notFound /\
  let run := pack_with ["M2"] currentConfig scenarioC in
  packFailures (emitted run) = [notFound] /\
  exists m r s, last (emitted run) = Some (PackCall m r s (Rejected notFound)).
Proof.
  split; [apply keys_at_storeOf|]. split; [vm_compute; reflexivity|].
  apply (EnvelopeFacts.thrown_error_is_wallet_error (standInWallet ["M2"]) currentConfig
           forwardDoc typeOfDoc ping 0 scenarioC (worldOf scenarioC)).
  - apply keys_at_storeOf.
  - vm_compute; reflexivity.
Defined.

Lemma caller_keys_unchanged_witness :
  heap (worldOf scenarioC) !! 0 = Some (KeysCell 1 2 None) /\
  heap (worldOf scenarioC) !! 1 = Some (ArrayCell ["R1"]) /\
  heap (worldOf scenarioC) !! 2 = Some (ArrayCell ["M1"; "M2"]) /\
  let after := heap (final (pack_with [] currentConfig scenarioC)) in
  after !! 0 = Some (KeysCell 1 2 None) /\
  after !! 1 = Some (ArrayCell ["R1"]) /\
  after !! 2 = Some (ArrayCell ["M1"; "M2"]).
Proof.
  assert (heap (worldOf scenarioC) !! 0 = Some (KeysCell 1 2 None)) as H0
    by (vm_compute; reflexivity).
  assert (heap (worldOf scenarioC) !! 1 = Some (ArrayCell ["R1"])) as H1
    by (vm_compute; reflexivity).
  assert (heap (worldOf scenarioC) !! 2 = Some (ArrayCell ["M1"; "M2"])) as H2
    by (vm_compute; reflexivity).
  split; [exact H0|]. split; [exact H1|]. split; [exact H2|].
  exact (EnvelopeFacts.caller_keys_unchanged (standInWallet []) currentConfig forwardDoc
           typeOfDoc ping 0 1 2 None ["R1"] ["M1"; "M2"] (worldOf scenarioC) H0 H1 H2).
Defined.

(** C10 on the code: two inputs with a field given on which the call does
    something else than throwing "Revocation not supported yet": a tails
    file that does not exist, whose error comes first; and an empty
    revocation registry id, with which [indy.issuerCreateCredential] is
    invoked. *)
Lemma createCredential_beside_the_guard :
  outcome (Issuer.createCredential standInIssuer
             (credentialOptions None (Some "/tmp/tails")) [])
    = Rejected (AriesFrameworkError "Tails file does not exist at path /tmp/tails") /\
  let run := Issuer.createCredential standInIssuer
               (credentialOptions (Some EmptyString) None) [] in
  outcome run = Fulfilled ("credential", "1") /\
  Issuer.issuerCalls (emitted run) = [(Some EmptyString, 0%Z)].
Proof. vm_compute. repeat split; reflexivity. Qed.

Lemma revocation_guard_witness :
  (forall message,
      Issuer.isIndyError (Collaborators := standInIssuer) (AriesFrameworkError message)
        = false) /\
  (* the tails file does not exist: the reader's error is what is thrown *)
  (let run := Issuer.createCredential standInIssuer
                (credentialOptions (Some "revocation-registry") (Some "/tmp/tails")) [] in
   Issuer.issuerCalls (emitted run) = [] /\
   emitted run = [Issuer.ExistsCall "/tmp/tails" (Fulfilled false)] /\
   outcome run
     = Rejected (AriesFrameworkError "Tails file does not exist at path /tmp/tails")) /\
  (* the tails file exists: the reader is opened, then the guard throws *)
  (let run := Issuer.createCredential standInIssuer
                (credentialOptions None (Some "/tmp/tails")) ["/tmp/tails"] in
   Issuer.issuerCalls (emitted run) = [] /\
   emitted run = [Issuer.ExistsCall "/tmp/tails" (Fulfilled true);
                  Issuer.OpenBlobStorageReaderCall "default" {| Issuer.base_dir := "/tmp" |}
                    (Fulfilled 7%Z)] /\
   outcome run = Rejected (AriesFrameworkError "Revocation not supported yet")) /\
  (* only a revocation registry id: the guard throws and nothing is called *)
  (let run := Issuer.createCredential standInIssuer
                (credentialOptions (Some "revocation-registry") None) [] in
   Issuer.issuerCalls (emitted run) = [] /\
   emitted run = [] /\
   outcome run = Rejected (AriesFrameworkError "Revocation not supported yet")).
Proof.
  split; [reflexivity|]. split; [|split].
  - intros run.
    destruct (IssuerFacts.revocation_guard standInIssuer
                (credentialOptions (Some "revocation-registry") (Some "/tmp/tails")) []
                (fun message => eq_refl)) as [Hguard _].
    destruct (Hguard eq_refl) as (Hcalls & _ & Hreader).
    destruct (Hreader eq_refl) as (Hemitted & _ & Houtcome).
    split; [exact Hcalls|]. split.
    + etransitivity; [exact Hemitted|]. vm_compute. reflexivity.
    + etransitivity; [exact Houtcome|]. vm_compute. reflexivity.
  - intros run.
    destruct (IssuerFacts.revocation_guard standInIssuer
                (credentialOptions None (Some "/tmp/tails")) ["/tmp/tails"]
                (fun message => eq_refl)) as [Hguard _].
    destruct (Hguard eq_refl) as (Hcalls & _ & Hreader).
    destruct (Hreader eq_refl) as (Hemitted & _ & Houtcome).
    split; [exact Hcalls|]. split.
    + etransitivity; [exact Hemitted|]. vm_compute. reflexivity.
    + etransitivity; [exact Houtcome|]. vm_compute. reflexivity.
  - intros run.
    destruct (IssuerFacts.revocation_guard standInIssuer
                (credentialOptions (Some "revocation-registry") None) []
                (fun message => eq_refl)) as [Hguard _].
    destruct (Hguard eq_refl) as (Hcalls & Hplain & _).
    destruct (Hplain eq_refl) as (Hemitted & Houtcome).
    split; [exact Hcalls|]. split; [exact Hemitted | exact Houtcome].
Defined.

End Scenarios.

(** ** More of the services on concrete inputs *)

Module MoreScenarios.
Import Envelope Observations Fixture MoreFixture.

Lemma standIn_inverts_anywhere unknown : unpack_inverts_pack_anywhere (standInWallet unknown).
Proof.
  intros m R sender ws wire ws'. cbn.
  destruct (existsb _ R); [discriminate|].
  intros [= <- <-] ws0. eexists _, _. split; [reflexivity|]. done.
Qed.

Lemma pack_recipients_witness :
  keys_at (heap (worldOf scenarioC)) 0 scenarioC /\
  let run := pack_with ["M2"] currentConfig scenarioC in
  packRecipients (emitted run)
    = ["R1"] :: ((fun k => [k]) <$> take (length (forwardsCreated (emitted run))) ["M1"; "M2"]) /\
  (is_fulfilled (outcome run) = true ->
   packRecipients (emitted run) = ["R1"] :: ((fun k => [k]) <$> ["M1"; "M2"])).
Proof.
  split; [apply Scenarios.keys_at_storeOf|].
  apply (EnvelopeFacts.pack_recipients (standInWallet ["M2"]) currentConfig forwardDoc
           typeOfDoc ping 0 scenarioC (worldOf scenarioC)).
  apply Scenarios.keys_at_storeOf.
Defined.

Lemma layers_nest_witness :
  keys_at (heap (worldOf scenarioC)) 0 scenarioC /\
  let run := pack_with [] currentConfig scenarioC in
  let calls := packCalls (emitted run) in
  (exists answer, calls !! 0 = Some (toJSON ping (legacyOption currentConfig), answer)) /\
  (forall i fwd,
      forwardsCreated (emitted run) !! i = Some fwd ->
      (exists m, calls !! i = Some (m, Fulfilled (message fwd))) /\
      (exists answer,
          calls !! S i = Some (forwardDoc fwd (legacyOption currentConfig), answer))) /\
  (exists m, last calls = Some (m, outcome run)).
Proof.
  split; [apply Scenarios.keys_at_storeOf|].
  apply (EnvelopeFacts.layers_nest (standInWallet []) currentConfig forwardDoc
           typeOfDoc ping 0 scenarioC (worldOf scenarioC)).
  apply Scenarios.keys_at_storeOf.
Defined.

Lemma layers_unwrap_witness :
  keys_at (heap (worldOf scenarioC)) 0 scenarioC /\
  unpack_inverts_pack_anywhere (standInWallet []) /\
  let run := pack_with [] currentConfig scenarioC in
  forall i fwd,
    forwardsCreated (emitted run) !! i = Some fwd ->
    forall w0 : World nat,
    exists ctx,
      outcome (unpackMessage (standInWallet []) (message fwd) w0) = Fulfilled ctx /\
      match i with
      | 0 => ctx_message ctx = toJSON ping (legacyOption currentConfig) /\
             ctx_senderKey ctx = None
      | S j =>
          exists inner,
            forwardsCreated (emitted run) !! j = Some inner /\
            ctx_message ctx = forwardDoc inner (legacyOption currentConfig) /\
            ctx_senderKey ctx = None
      end.
Proof.
  split; [apply Scenarios.keys_at_storeOf|]. split; [apply standIn_inverts_anywhere|].
  apply (EnvelopeFacts.layers_unwrap (standInWallet []) currentConfig forwardDoc
           typeOfDoc ping 0 scenarioC (worldOf scenarioC)).
  - apply Scenarios.keys_at_storeOf.
  - apply standIn_inverts_anywhere.
Defined.

Lemma unaddressed_forward_witness :
  let ek := {| recipientKeys := []; routingKeys := ["M1"]; senderKey := None |} in
  let inner := DSealed (toJSON ping (legacyOption currentConfig)) [] None in
  keys_at (heap (worldOf ek)) 0 ek /\
  pack (Wallet := standInWallet []) (toJSON ping (legacyOption currentConfig)) [] None 0
    = (Fulfilled inner, 1) /\
  exists later,
    forwardsCreated (emitted (pack_with [] currentConfig ek))
      = {| to := None; message := inner |} :: later.
Proof.
  intros ek inner. split; [apply Scenarios.keys_at_storeOf|]. split; [reflexivity|].
  apply (EnvelopeFacts.unaddressed_forward (standInWallet []) currentConfig forwardDoc
           typeOfDoc ping 0 ek (worldOf ek) "M1" [] inner 1).
  - apply Scenarios.keys_at_storeOf.
  - reflexivity.
  - reflexivity.
  - reflexivity.
Defined.

Lemma missing_tails_file_witness :
  (Issuer.fileSystem_exists (Collaborators := standInIssuer) "/tmp/tails" []).1
    = Fulfilled false /\
  (forall message,
      Issuer.isIndyError (Collaborators := standInIssuer) (AriesFrameworkError message)
        = false) /\
  outcome (Issuer.createTailsReader standInIssuer "/tmp/tails" [])
    = Rejected (AriesFrameworkError ("Tails file does not exist at path " +:+ "/tmp/tails")).
Proof.
  split; [vm_compute; reflexivity|]. split; [reflexivity|].
  apply (IssuerFacts.missing_tails_file standInIssuer "/tmp/tails" []).
  - vm_compute; reflexivity.
  - reflexivity.
Defined.

Lemma tails_reader_opened_then_refused_witness :
  let options := credentialOptions None (Some "/tmp/tails") in
  Issuer.tailsFilePath options = Some "/tmp/tails" /\
  "/tmp/tails" <> EmptyString /\
  Issuer.createCredential standInIssuer options ["/tmp/tails"] =
    MkRun (Rejected (AriesFrameworkError "Revocation not supported yet")) ["/tmp/tails"]
          [Issuer.ExistsCall "/tmp/tails" (Fulfilled true);
           Issuer.OpenBlobStorageReaderCall "default" {| Issuer.base_dir := "/tmp" |}
             (Fulfilled 7%Z)].
Proof.
  intros options. split; [reflexivity|]. split; [discriminate|].
  apply (IssuerFacts.tails_reader_opened_then_refused standInIssuer options
           ["/tmp/tails"] "/tmp/tails" ["/tmp/tails"] 7%Z ["/tmp/tails"]).
  - reflexivity.
  - discriminate.
  - vm_compute; reflexivity.
  - reflexivity.
  - reflexivity.
Defined.

Lemma createCredential_without_revocation_witness :
  let options := credentialOptions (Some EmptyString) None in
  truthy (Issuer.revocationRegistryId options) = false /\
  truthy (Issuer.tailsFilePath options) = false /\
  let run := Issuer.createCredential standInIssuer options [] in
  Issuer.existsCalls (emitted run) = [] /\
  Issuer.readerCalls (emitted run) = [] /\
  outcome run = Fulfilled ("credential", "1").
Proof.
  intros options. split; [reflexivity|]. split; [reflexivity|].
  apply (IssuerFacts.createCredential_without_revocation standInIssuer options []);
    reflexivity.
Defined.

Lemma reader_error_wrapped_once_witness :
  let options := credentialOptions None (Some "/tmp/tails") in
  Issuer.isIndyError (Collaborators := brokenStorageIssuer) (IndySdkError storageError)
    = false /\
  outcome (Issuer.createCredential brokenStorageIssuer options ["/tmp/tails"])
    = Rejected (IndySdkError storageError).
Proof.
  intros options. split; [reflexivity|].
  apply (IssuerFacts.reader_error_wrapped_once brokenStorageIssuer options
           ["/tmp/tails"] "/tmp/tails" ["/tmp/tails"] storageError ["/tmp/tails"]).
  - reflexivity.
  - discriminate.
  - vm_compute; reflexivity.
  - reflexivity.
  - reflexivity.
Defined.

Lemma credential_definition_defaults_witness :
  IssuerDefinitions.wallet_handle (Collaborators := standInDefinitions true) 0
    = Fulfilled 1%Z /\
  IssuerDefinitions.credDefCalls
    (emitted (IssuerDefinitions.createCredentialDefinition (standInDefinitions true)
                emptyTagOptions 0))
    = [(EmptyString, IssuerDefinitions.CL,
        {| IssuerDefinitions.support_revocation := false |})].
Proof.
  split; [reflexivity|].
  apply (IssuerDefinitionsFacts.credential_definition_defaults (standInDefinitions true)
           emptyTagOptions 0 1%Z).
  reflexivity.
Defined.

Lemma closed_wallet_stops_issuer_witness :
  IssuerDefinitions.wallet_handle (Collaborators := standInDefinitions false) 0
    = Rejected walletClosed /\
  IssuerDefinitions.createCredentialDefinition (standInDefinitions false) emptyTagOptions 0
    = MkRun (Rejected walletClosed) 0 [IssuerDefinitions.HandleRead (Rejected walletClosed)] /\
  IssuerDefinitions.createCredentialOffer (standInDefinitions false) "definition" 0
    = MkRun (Rejected walletClosed) 0 [IssuerDefinitions.HandleRead (Rejected walletClosed)].
Proof.
  split; [reflexivity|].
  apply (IssuerDefinitionsFacts.closed_wallet_stops_issuer (standInDefinitions false)
           emptyTagOptions "definition" 0 walletClosed).
  reflexivity.
Defined.

Lemma createCredentialOffer_outcome_witness :
  IssuerDefinitions.wallet_handle (Collaborators := standInDefinitions true) 0
    = Fulfilled 1%Z /\
  let run := IssuerDefinitions.createCredentialOffer (standInDefinitions true) "definition" 0 in
  IssuerDefinitions.indyCalls (emitted run)
    = [IssuerDefinitions.CreateCredentialOfferCall 1%Z "definition"
         (Fulfilled "offer for definition")] /\
  outcome run = Fulfilled "offer for definition".
Proof.
  split; [reflexivity|].
  apply (IssuerDefinitionsFacts.createCredentialOffer_outcome (standInDefinitions true)
           "definition" 0 1%Z).
  reflexivity.
Defined.

End MoreScenarios.
